(** * The mental-health chatbot of [app.py]: classifier, responder and store

    A shallow embedding of the message pipeline of [app.py] (normalisation,
    crisis detection, topic tagging, reply selection) and of its SQLite
    conversation log, followed by the properties of the specification.

    Conventions of the embedding.
    - A Python [str] is the list of its code points.  The code points are
      those of the first 256 (Basic Latin and Latin-1 Supplement), carried
      by [ascii]; on that range [str.lower], [str.isspace] and the regular
      expression classes [\s] and [\w] are written out exactly as CPython
      has them.  The reply constants are written as in the source, in
      UTF-8; they are only concatenated and stored, never inspected.
    - A Python [float] is the decimal number that writes it (its [repr]), a
      rational of [Q]: the order of floats is the order of these decimals,
      and the code does nothing with the compound score but compare it with
      the literals [0.05], [-0.05] and [-0.85] and store it.
    - [random], the SQLite file and the clock are explicit state and
      explicit arguments; the VADER analyser [sia] is a parameter. *)

From Stdlib Require Import List Bool Arith ZArith QArith Lia Lqa Ascii String Sorted.
Import ListNotations.

Set Implicit Arguments.

(** ** Text *)

Definition str := list ascii.

(** A source literal. *)
Definition py (s : string) : str := list_ascii_of_string s.

Definition ord (c : ascii) : nat := nat_of_ascii c.

Definition between (lo hi n : nat) : bool := (lo <=? n)%nat && (n <=? hi)%nat.

(** [str.isspace] and [\s]: TAB..CR, FS..US, SPACE, NEL and NBSP. *)
Definition isspace (c : ascii) : bool :=
  let n := ord c in
  between 9 13 n || between 28 32 n || (n =? 133)%nat || (n =? 160)%nat.

(** The code points that [str.lower] changes: A..Z and the Latin-1 capitals
    (U+00C0..U+00DE without the multiplication sign U+00D7). *)
Definition isupper (c : ascii) : bool :=
  let n := ord c in
  between 65 90 n || (between 192 222 n && negb (n =? 215)%nat).

Definition lower_char (c : ascii) : ascii :=
  if isupper c then ascii_of_nat (ord c + 32) else c.

(** [str.lower] *)
Definition lower (s : str) : str := map lower_char s.

(** [\w] on a [str] pattern: alphanumeric code points and the underscore. *)
Definition isword (c : ascii) : bool :=
  let n := ord c in
  between 48 57 n || between 65 90 n || (n =? 95)%nat || between 97 122 n
  || (n =? 170)%nat || between 178 179 n || (n =? 181)%nat
  || between 185 186 n || between 188 190 n
  || between 192 214 n || between 216 246 n || between 248 255 n.

Fixpoint lstrip (s : str) : str :=
  match s with
  | [] => []
  | c :: r => if isspace c then lstrip r else s
  end.

Fixpoint rstrip (s : str) : str :=
  match s with
  | [] => []
  | c :: r =>
      match rstrip r with
      | [] => if isspace c then [] else [c]
      | r' => c :: r'
      end
  end.

(** [str.strip()] *)
Definition strip (s : str) : str := rstrip (lstrip s).

Definition space : ascii := " "%char.

(** [re.sub(r'\s+', ' ', s)]: every maximal run of whitespace becomes one
    space.  [in_run] tells that the previous character belonged to the run
    being replaced. *)
Fixpoint sub_ws (in_run : bool) (s : str) : str :=
  match s with
  | [] => []
  | c :: r =>
      if isspace c
      then (if in_run then sub_ws true r else space :: sub_ws true r)
      else c :: sub_ws false r
  end.

Definition re_sub_ws (s : str) : str := sub_ws false s.

(** [preprocess], app.py line 73 *)
Definition preprocess (text : str) : str := re_sub_ws (strip (lower text)).

(** *** Matching *)

(** [starts_with p s] is what follows [p] in [s] when [s] begins with [p]. *)
Fixpoint starts_with (p s : str) : option str :=
  match p, s with
  | [], _ => Some s
  | _ :: _, [] => None
  | a :: p', b :: s' => if Ascii.eqb a b then starts_with p' s' else None
  end.

(** [w in t] on strings *)
Fixpoint contains (w t : str) : bool :=
  match starts_with w t with
  | Some _ => true
  | None => match t with
            | [] => false
            | _ :: r => contains w r
            end
  end.

Definition word_at (o : option ascii) : bool :=
  match o with
  | Some c => isword c
  | None => false
  end.

(** [\b] between the character before and the character after a position
    ([None] outside the string). *)
Definition boundary (before after : option ascii) : bool :=
  xorb (word_at before) (word_at after).

Definition last_char (prev : option ascii) (s : str) : option ascii :=
  fold_left (fun _ c => Some c) s prev.

(** The pattern [\b kw \b] tried at one position of the subject, [prev]
    being the character before that position and [s] the rest. *)
Definition match_here (prev : option ascii) (kw s : str) : bool :=
  boundary prev (hd_error s) &&
  match starts_with kw s with
  | Some rest => boundary (last_char prev kw) (hd_error rest)
  | None => false
  end.

(** [re.search(rf'\b{re.escape(kw)}\b', t)] is not [None] *)
Fixpoint search_from (prev : option ascii) (kw s : str) : bool :=
  match_here prev kw s ||
  match s with
  | [] => false
  | c :: r => search_from (Some c) kw r
  end.

Definition re_search_word (kw t : str) : bool := search_from None kw t.

(** ** Configurable constants, app.py lines 26-68 *)

Definition CRISIS_KEYWORDS : list str :=
  [ py "suicide"; py "kill myself"; py "end my life"; py "harm myself";
    py "want to die"; py "i can't go on"; py "i cant go on" ].

Definition COMMON_KEYWORDS : list (str * list str) :=
  [ (py "stress", [py "stress"; py "stressed"; py "overwhelmed"]);
    (py "anxiety", [py "anxious"; py "anxiety"; py "panic"; py "worry"]);
    (py "depressed",
      [py "depress"; py "sad"; py "unhappy"; py "hopeless"; py "down"]);
    (py "sleep", [py "insomnia"; py "sleep"; py "tired"; py "sleeping"]);
    (py "exam", [py "exam"; py "test"; py "interview"; py "deadline"]) ].

Definition POSITIVE_RESPONSES : list str :=
  [ py "That's wonderful to hear — keep that energy going! Anything you want to celebrate?";
    py "Awesome! I'm glad things are going well. Want to share more?";
    py "Great! Celebrating small wins is powerful — tell me one thing that went well today." ].

Definition NEUTRAL_RESPONSES : list str :=
  [ py "I see. Tell me a bit more about what's on your mind.";
    py "Okay — would you like a breathing exercise or a quick mood check?";
    py "I understand. Want to try a short grounding exercise together?" ].

Definition NEGATIVE_RESPONSES : list str :=
  [ py "I'm sorry you're feeling this way. Would you like a simple breathing exercise or a coping tip?";
    py "That sounds tough. I'm here for you — do you want a grounding exercise or a small distraction?";
    py "I'm listening. If you want, we can try a 1-minute breathing exercise together." ].

Definition COPING_TIPS : list str :=
  [ py "Try the 4-4-4 breathing: inhale 4s, hold 4s, exhale 4s. Do this for 1-2 minutes.";
    py "Take a short walk, even 5–10 minutes. Movement can help reset your mood.";
    py "Write down 3 things you did well today — little wins matter.";
    py "Listen to a calming song you like for 5 minutes or try a guided breathing app." ].

Definition CRISIS_MESSAGE : str :=
  py "I’m really sorry you’re feeling this way. If you are in immediate danger or think you might "
  ++ py "harm yourself, please contact your local emergency services right now. "
  ++ py "If you can, reach out to someone you trust or a mental health professional.".

(** ** Helper functions, NLP: app.py lines 73-95 *)

(** [contains_crisis], line 79 *)
Definition contains_crisis (text : str) : bool :=
  let t := preprocess text in
  existsb (fun kw => re_search_word kw t) CRISIS_KEYWORDS.

(** [extract_tags], line 83: the keys of [COMMON_KEYWORDS], in the order of
    the dictionary, one of whose words occurs in the text. *)
Definition extract_tags (text : str) : list str :=
  let t := preprocess text in
  map fst
    (filter (fun item => existsb (fun w => contains w t) (snd item))
       COMMON_KEYWORDS).

(** [', '.join(l)] *)
Fixpoint join (sep : str) (l : list str) : str :=
  match l with
  | [] => []
  | [x] => x
  | x :: r => x ++ sep ++ join sep r
  end.

(** The dictionary returned by [sia.polarity_scores]. *)
Record scores := { neg : Q; neu : Q; pos : Q; compound : Q }.

(** The three values of the variable [sentiment] of the Send handler. *)
Inductive sentiment := positive | neutral | negative.

(** Lines 180-185: the bucket of a compound score. *)
Definition bucket (c : Q) : sentiment :=
  if Qle_bool 0.05 c then positive
  else if Qle_bool c (-0.05) then negative
  else neutral.

(** ** The random source

    The generator of the [random] module, reduced to what [random.choice]
    consumes: the sequence of numbers it will draw and how many were
    drawn. *)
Record rng := { draws : nat -> nat; used : nat }.

(** ** Helper functions, database: app.py lines 100-133 *)

(** A row of the table [messages]: its columns id, user, role, text,
    compound and timestamp. *)
Record row := { m_id : Z; m_user : str; m_role : str; m_text : str;
                m_compound : option Q; m_timestamp : str }.

(** The database file: the rows of [messages] in the order they were
    written, and the counter AUTOINCREMENT keeps in [sqlite_sequence]
    (the largest id ever given out). *)
Record database := { messages : list row; sqlite_sequence : Z }.

Definition empty_db : database := {| messages := []; sqlite_sequence := 0 |}.

(** [init_db], line 100: CREATE TABLE IF NOT EXISTS; [None] is the file
    without the table. *)
Definition init_db (file : option database) : database :=
  match file with
  | Some d => d
  | None => empty_db
  end.

(** [save_message], line 115; [now] is [datetime.utcnow().isoformat()]. *)
Definition save_message (user role text : str) (compound : option Q)
    (now : str) (d : database) : database :=
  let i := (sqlite_sequence d + 1)%Z in
  {| messages := messages d ++
       [ {| m_id := i; m_user := user; m_role := role; m_text := text;
            m_compound := compound; m_timestamp := now |} ];
     sqlite_sequence := i |}.

Fixpoint str_eqb (a b : str) : bool :=
  match a, b with
  | [], [] => true
  | x :: a', y :: b' => Ascii.eqb x y && str_eqb a' b'
  | _, _ => false
  end.

(** WHERE user = ? *)
Definition where_user (user : str) (l : list row) : list row :=
  filter (fun m => str_eqb (m_user m) user) l.

(** ORDER BY id DESC *)
Fixpoint insert_desc (m : row) (l : list row) : list row :=
  match l with
  | [] => [m]
  | x :: r => if (m_id x <? m_id m)%Z then m :: l else x :: insert_desc m r
  end.

Fixpoint order_by_id_desc (l : list row) : list row :=
  match l with
  | [] => []
  | m :: r => insert_desc m (order_by_id_desc r)
  end.

(** LIMIT ?: a negative limit puts no bound on the number of rows. *)
Definition sql_limit (A : Type) (limit : Z) (l : list A) : list A :=
  if (limit <? 0)%Z then l else firstn (Z.to_nat limit) l.

(** The rows the query of [get_history] selects, in the order of the query. *)
Definition select_history (user : str) (limit : Z) (d : database) : list row :=
  sql_limit limit (order_by_id_desc (where_user user (messages d))).

(** SELECT role, text, compound, timestamp *)
Definition columns (m : row) : str * str * option Q * str :=
  (m_role m, m_text m, m_compound m, m_timestamp m).

(** An integer that sqlite3 can bind as an SQLite INTEGER. *)
Definition int64 (z : Z) : bool := ((- 2 ^ 63 <=? z) && (z <? 2 ^ 63))%Z.

(** [get_history], line 124.  [None] is the [OverflowError] that binding a
    limit outside the 64-bit range raises. *)
Definition get_history (user : str) (limit : Z) (d : database)
  : option (list (str * str * option Q * str)) :=
  if int64 limit
  then Some (rev (map columns (select_history user limit d)))
  else None.

(** ** The Send handler, app.py lines 169-198 *)

(** What the handler works on: the database file and the generator. *)
Record world := { db : database; gen : rng }.

(** Computations of the handler: they thread the world and may raise. *)
Definition M (A : Type) : Type := world -> option (A * world).

Definition ret (A : Type) (a : A) : M A := fun w => Some (a, w).

Definition bind (A B : Type) (m : M A) (k : A -> M B) : M B :=
  fun w => match m w with
           | Some (a, w') => k a w'
           | None => None
           end.

Notation "x <- m ;; k" := (bind m (fun x => k))
  (at level 61, m at next level, right associativity).
Notation "m ;;; k" := (bind m (fun _ => k))
  (at level 61, right associativity).

(** A write to the database. *)
Definition store (f : database -> database) : M unit :=
  fun w => Some (tt, {| db := f (db w); gen := gen w |}).

(** The generator after one draw. *)
Definition advance (g : rng) : rng := {| draws := draws g; used := S (used g) |}.

(** [random.choice(pool)]: raises [IndexError] on an empty pool. *)
Definition random_choice (A : Type) (pool : list A) : M A :=
  fun w =>
    let g := gen w in
    match nth_error pool (draws g (used g) mod List.length pool) with
    | Some x => Some (x, {| db := db w; gen := advance g |})
    | None => None
    end.

(** [pick_response], line 87 *)
Definition pick_response (s : sentiment) : M str :=
  match s with
  | positive => random_choice POSITIVE_RESPONSES
  | neutral => random_choice NEUTRAL_RESPONSES
  | negative => random_choice NEGATIVE_RESPONSES
  end.

(** [get_coping_tip], line 94 *)
Definition get_coping_tip : M str := random_choice COPING_TIPS.

Definition tags_sentence (tags : list str) : str :=
  py " I noticed you're talking about " ++ join (py ", ") tags
  ++ py ". Want tips related to that?".

Section Handler.

(** [sia.polarity_scores] of the VADER analyser. *)
Variable polarity_scores : str -> scores.

(** [sentiment_scores], line 76 *)
Definition sentiment_scores (text : str) : scores :=
  polarity_scores (preprocess text).

(** Lines 187-193: the reply of a turn that is not a crisis. *)
Definition bucket_reply (s : sentiment) (tags : list str) : M str :=
  bot_text <- pick_response s ;;
  match s, tags with
  | negative, _ =>
      tip <- get_coping_tip ;; ret (bot_text ++ py " Tip: " ++ tip)
  | neutral, _ :: _ => ret (bot_text ++ tags_sentence tags)
  | _, _ => ret bot_text
  end.

(** Lines 170-196: one turn.  The result is the text the page shows;
    [now_user] and [now_bot] are the clock readings of the two writes. *)
Definition turn (username user_input now_user now_bot : str) : M str :=
  let c := compound (sentiment_scores user_input) in
  store (save_message username (py "user") user_input (Some c) now_user) ;;;
  if contains_crisis user_input || Qle_bool c (-0.85) then
    let bot_text := CRISIS_MESSAGE in
    store (save_message username (py "bot") bot_text None now_bot) ;;;
    ret bot_text
  else
    bot_text <- bucket_reply (bucket c) (extract_tags user_input) ;;
    store (save_message username (py "bot") bot_text None now_bot) ;;;
    ret bot_text.

(** Line 169: [if st.button("Send") and user_input]. *)
Definition on_send (pressed : bool) (username user_input now_user now_bot : str)
  : M (option str) :=
  match pressed, user_input with
  | true, _ :: _ =>
      bot_text <- turn username user_input now_user now_bot ;;
      ret (Some bot_text)
  | _, _ => ret None
  end.

End Handler.

(** ** The normalisation as the specification words it

    "Collapse all whitespace runs to single spaces, trim, lowercase", each
    step written on its own terms: a whitespace character followed by
    another one is dropped and the last of a run becomes the space; trimming
    removes the whitespace at the front of the text and at the front of the
    reversed text. *)





Definition allspace (s : str) : bool := forallb isspace s.

(** A text that does not begin with whitespace. *)
Definition head_ok (s : str) : Prop :=
  match s with
  | [] => True
  | c :: _ => isspace c = false
  end.

(** ** What the specification calls a match

    [occurs_in w t]: [w] is a substring of [t].  [word_match kw t]: [kw]
    occurs in [t] with a word boundary on each side. *)

Definition occurs_in (w t : str) : Prop :=
  exists pre post, t = pre ++ w ++ post.

Definition word_match_after (prev : option ascii) (kw t : str) : Prop :=
  exists pre post,
    t = pre ++ kw ++ post /\
    boundary (last_char prev pre) (hd_error (kw ++ post)) = true /\
    boundary (last_char prev (pre ++ kw)) (hd_error post) = true.

Definition word_match (kw t : str) : Prop := word_match_after None kw t.

(** ** Runs of the store *)

(** One call of [save_message]: its arguments and the clock reading. *)
Record append := { a_user : str; a_role : str; a_text : str;
                   a_compound : option Q; a_now : str }.

Definition apply_append (d : database) (a : append) : database :=
  save_message (a_user a) (a_role a) (a_text a) (a_compound a) (a_now a) d.

(** The database after [init_db] on a new file and the given calls of
    [save_message], in that order. *)
Definition run (calls : list append) : database :=
  fold_left apply_append calls (init_db None).

(** What [get_history] shows of a row written by the call. *)
Definition written (a : append) : str * str * option Q * str :=
  (a_role a, a_text a, a_compound a, a_now a).

Definition by_user (user : str) (calls : list append) : list append :=
  filter (fun a => str_eqb (a_user a) user) calls.

Definition without_user (user : str) (calls : list append) : list append :=
  filter (fun a => negb (str_eqb (a_user a) user)) calls.

(** The [n] last elements of a list, in the order of the list. *)
Definition lastn (A : Type) (n : nat) (l : list A) : list A :=
  skipn (List.length l - n) l.

Definition id_lt (a b : row) : Prop := (m_id a < m_id b)%Z.

(** The ids of the table grow with the order of insertion and none exceeds
    the AUTOINCREMENT counter. *)
Definition ids_ok (d : database) : Prop :=
  StronglySorted id_lt (messages d) /\
  Forall (fun m => (m_id m <= sqlite_sequence d)%Z) (messages d).

(** The topic names in the order [COMMON_KEYWORDS] declares them. *)
Definition TOPICS : list str :=
  [py "stress"; py "anxiety"; py "depressed"; py "sleep"; py "exam"].

(** ** The shapes of a reply *)

(** The pool [pick_response] draws from. *)
Definition responses (s : sentiment) : list str :=
  match s with
  | positive => POSITIVE_RESPONSES
  | neutral => NEUTRAL_RESPONSES
  | negative => NEGATIVE_RESPONSES
  end.



(** ** A small analyser and a starting world, for the examples *)

Definition flat (c : Q) : scores := {| neg := 0; neu := 1; pos := 0; compound := c |}.

Definition toy_sia (t : str) : scores :=
  if contains (py "hate") t then flat (-0.9)
  else if contains (py "sad") t then flat (-0.4)
  else if contains (py "great") t then flat 0.6
  else flat 0.

Definition new_world : world :=
  {| db := init_db None; gen := {| draws := fun n => n; used := 0 |} |}.

(** Two users writing in turn, for the examples. *)
Definition said (user text now : str) (c : Q) : append :=
  {| a_user := user; a_role := py "user"; a_text := text;
     a_compound := Some c; a_now := now |}.

Definition answered (user text now : str) : append :=
  {| a_user := user; a_role := py "bot"; a_text := text;
     a_compound := None; a_now := now |}.

Definition two_users : list append :=
  [ said (py "Guest") (py "hello") (py "2024-01-01T10:00:00") 0;
    said (py "Ana") (py "so tired") (py "2024-01-01T10:00:01") (-0.4);
    answered (py "Guest") (py "I see.") (py "2024-01-01T10:00:02");
    answered (py "Ana") (py "That sounds tough.") (py "2024-01-01T10:00:03");
    said (py "Guest") (py "great day") (py "2024-01-01T10:00:04") 0.6 ].

(** ** The page around the handler, app.py lines 157-163 and 203-214 *)

(** What the script hands to Streamlit. *)
Inductive widget :=
| markdown (body : str)
| info (body : str).

(** Line 161: one row of the history on the page. *)
Definition history_line (r : str * str * option Q * str) : widget :=
  let '(role, text, _, _) := r in
  markdown ((if str_eqb role (py "user") then py "You" else py "Bot")
            ++ py ":** " ++ text).

(** Lines 158-163: the conversation, from [get_history(username)] with its
    default limit of 500. *)
Definition conversation (username : str) (d : database) : option (list widget) :=
  match get_history username 500 d with
  | Some history =>
      Some match history with
           | [] => [info (py "No chat history yet. Start a conversation below.")]
           | _ :: _ => map history_line history
           end
  | None => None
  end.

(** Line 206: the records of the data frame of the mood chart, a timestamp
    and a compound score for every row of role 'user'. *)
Definition mood_records (rows : list (str * str * option Q * str))
  : list (str * option Q) :=
  map (fun r => let '(_, _, c, ts) := r in (ts, c))
    (filter (fun r => let '(role, _, _, _) := r in str_eqb role (py "user")) rows).

(** Lines 204-207: the data frame built from [get_history(username,
    limit=1000)]. *)
Definition mood_frame (username : str) (d : database)
  : option (list (str * option Q)) :=
  match get_history username 1000 d with
  | Some rows => Some (mood_records rows)
  | None => None
  end.

(** ** Sessions

    The script runs again at every interaction; of a run only the handler
    changes the world.  A session is the list of these runs, each with the
    state of the button, the two text inputs and the clock. *)
Record send := { s_pressed : bool; s_username : str; s_input : str;
                 s_now_user : str; s_now_bot : str }.

Fixpoint play (polarity_scores : str -> scores) (events : list send) : M unit :=
  match events with
  | [] => ret tt
  | e :: rest =>
      on_send polarity_scores (s_pressed e) (s_username e) (s_input e)
        (s_now_user e) (s_now_bot e) ;;;
      play polarity_scores rest
  end.

(** The calls of [save_message] as the handler makes them: in pairs, the
    user's row with a score and then the bot's row without one, both under
    the same name. *)
Fixpoint paired (calls : list append) : Prop :=
  match calls with
  | [] => True
  | [_] => False
  | u :: b :: rest =>
      a_user b = a_user u /\
      a_role u = py "user" /\ (exists c, a_compound u = Some c) /\
      a_role b = py "bot" /\ a_compound b = None /\
      paired rest
  end.

(** A table that only the handler has written. *)
Definition handler_built (d : database) : Prop :=
  exists calls, paired calls /\ d = run calls.

(** The two lines of a turn on the page. *)
Definition turn_lines (t : str * str) : list widget :=
  [markdown (py "You:** " ++ fst t); markdown (py "Bot:** " ++ snd t)].

(** ** Reading a text *)

(** The characters of a text that are not whitespace. *)
Definition visible (s : str) : str := filter (fun c => negb (isspace c)) s.

(** [extract_tags] for another table of keywords. *)
Definition tags_with (table : list (str * list str)) (text : str) : list str :=
  let t := preprocess text in
  map fst (filter (fun item => existsb (fun w => contains w t) (snd item)) table).

(** [COMMON_KEYWORDS] without the words that contain another word of their
    topic. *)
Definition SHORT_KEYWORDS : list (str * list str) :=
  [ (py "stress", [py "stress"; py "overwhelmed"]);
    (py "anxiety", [py "anxious"; py "anxiety"; py "panic"; py "worry"]);
    (py "depressed",
      [py "depress"; py "sad"; py "unhappy"; py "hopeless"; py "down"]);
    (py "sleep", [py "insomnia"; py "sleep"; py "tired"]);
    (py "exam", [py "exam"; py "test"; py "interview"; py "deadline"]) ].

(** [s.startswith(w)] *)
Definition begins (w s : str) : bool :=
  match starts_with w s with
  | Some _ => true
  | None => false
  end.

(** A word that is not empty and holds no whitespace. *)
Definition plain (w : str) : bool :=
  match w with
  | [] => false
  | _ :: _ => forallb (fun c => negb (isspace c)) w
  end.

(** The number of draws a turn takes from the generator. *)
Definition draws_of_turn (crisis : bool) (s : sentiment) : nat :=
  if crisis then 0 else match s with negative => 2 | _ => 1 end.

(** All the code points of the model. *)
Definition code_points : list ascii := map ascii_of_nat (seq 0 256).

(** * Properties *)

Unset Implicit Arguments.

(** ** The character tables, and the functions on sample texts *)

Example isspace_table :
  map ord (filter isspace code_points)
  = [9; 10; 11; 12; 13; 28; 29; 30; 31; 32; 133; 160]%nat.
Proof. vm_compute. reflexivity. Qed.

Example isword_table :
  map ord (filter isword code_points)
  = (seq 48 10 ++ seq 65 26 ++ [95] ++ seq 97 26
     ++ [170; 178; 179; 181; 185; 186; 188; 189; 190]
     ++ seq 192 23 ++ seq 216 31 ++ seq 248 8)%nat.
Proof. vm_compute. reflexivity. Qed.

Example lower_table :
  map ord (filter (fun ch => negb (Ascii.eqb (lower_char ch) ch)) code_points)
  = (seq 65 26 ++ seq 192 23 ++ seq 216 7)%nat /\
  forall ch, lower_char ch <> ch -> ord (lower_char ch) = (ord ch + 32)%nat.
Proof.
  split; [vm_compute; reflexivity|].
  intros ch. destruct ch as [[] [] [] [] [] [] [] []]; vm_compute;
    solve [reflexivity | intros H; now elim H].
Qed.

Example preprocess_ex :
  preprocess (py "  I  FEEL so
 Stressed ") = py "i feel so stressed".
Proof. reflexivity. Qed.

Example crisis_ex1 : contains_crisis (py "I want to END   my life.") = true.
Proof. reflexivity. Qed.

Example crisis_ex2 : contains_crisis (py "suicides") = false.
Proof. reflexivity. Qed.

Example tags_ex :
  extract_tags (py "I feel so stressed about my exam tomorrow")
  = [py "stress"; py "exam"].
Proof. reflexivity. Qed.

Example crisis_ex3 : contains_crisis (py "suicidal thoughts") = false.
Proof. reflexivity. Qed.

Example tags_substring_ex :
  extract_tags (py "Download the latest contest") = [py "depressed"; py "exam"].
Proof. reflexivity. Qed.

Example topics_declared : TOPICS = map fst COMMON_KEYWORDS.
Proof. reflexivity. Qed.

(** ** Characters *)

Ltac by_cases_on_char c :=
  destruct c as [[] [] [] [] [] [] [] []]; vm_compute; reflexivity.

Lemma isspace_lower_char (c : ascii) : isspace (lower_char c) = isspace c.
Proof. by_cases_on_char c. Qed.

Lemma lower_char_idem (c : ascii) : lower_char (lower_char c) = lower_char c.
Proof. by_cases_on_char c. Qed.

Lemma isspace_space : isspace space = true.
Proof. reflexivity. Qed.

Lemma lower_char_space : lower_char space = space.
Proof. reflexivity. Qed.

(** ** Stripping and collapsing *)

Lemma lstrip_head_ok (s : str) : head_ok (lstrip s).
Proof.
  induction s as [|c r IH]; simpl; [exact I|].
  destruct (isspace c) eqn:E; [exact IH | exact E].
Qed.

Lemma lstrip_fix (s : str) : head_ok s -> lstrip s = s.
Proof. destruct s as [|c r]; simpl; [reflexivity|]. now intros ->. Qed.

Lemma rstrip_cons_word (c : ascii) (r : str) :
  isspace c = false -> rstrip (c :: r) = c :: rstrip r.
Proof. intros E. simpl. rewrite E. now destruct (rstrip r). Qed.

Lemma rstrip_cons_space (c : ascii) (r : str) :
  isspace c = true ->
  rstrip (c :: r) = match rstrip r with [] => [] | _ :: _ => c :: rstrip r end.
Proof. intros E. simpl. rewrite E. now destruct (rstrip r). Qed.

Lemma rstrip_allspace (s : str) : allspace s = true -> rstrip s = [].
Proof.
  induction s as [|c r IH]; simpl; [reflexivity|].
  intros H. apply andb_prop in H as [Hc Hr]. now rewrite (IH Hr), Hc.
Qed.

Lemma rstrip_nil_allspace (s : str) : rstrip s = [] -> allspace s = true.
Proof.
  induction s as [|c r IH]; simpl; [reflexivity|].
  destruct (rstrip r) eqn:E; [|discriminate].
  destruct (isspace c); [|discriminate]. intros _. now rewrite IH.
Qed.

Lemma rstrip_idem (s : str) : rstrip (rstrip s) = rstrip s.
Proof.
  induction s as [|c r IH]; [reflexivity|].
  destruct (isspace c) eqn:E.
  - rewrite (rstrip_cons_space c r E). destruct (rstrip r) as [|x y] eqn:R; [reflexivity|].
    rewrite (rstrip_cons_space c (x :: y) E), IH. reflexivity.
  - rewrite (rstrip_cons_word c r E), (rstrip_cons_word c _ E), IH. reflexivity.
Qed.

Lemma rstrip_head_ok (s : str) : head_ok s -> head_ok (rstrip s).
Proof.
  destruct s as [|c r]; [trivial|]. simpl head_ok at 1. intros E.
  now rewrite (rstrip_cons_word c r E).
Qed.




Lemma sub_ws_nil_allspace (b : bool) (s : str) :
  sub_ws b s = [] -> allspace s = true.
Proof.
  revert b. induction s as [|c r IH]; intros b; simpl; [reflexivity|].
  destruct (isspace c); [|discriminate].
  destruct b; [|discriminate]. apply IH.
Qed.

Lemma sub_ws_true_lstrip (s : str) : sub_ws true s = sub_ws false (lstrip s).
Proof.
  induction s as [|c r IH]; simpl; [reflexivity|].
  destruct (isspace c) eqn:E; [exact IH|]. simpl. now rewrite E.
Qed.

Lemma sub_ws_head_ok (b : bool) (s : str) : head_ok s -> head_ok (sub_ws b s).
Proof.
  destruct s as [|c r]; simpl; [trivial|]. intros E. rewrite E. exact E.
Qed.

Lemma sub_ws_idem (b : bool) (s : str) : sub_ws b (sub_ws b s) = sub_ws b s.
Proof.
  revert b. induction s as [|c r IH]; intros b; simpl; [reflexivity|].
  destruct (isspace c) eqn:E.
  - destruct b; [apply IH|]. simpl. rewrite ?isspace_space. f_equal. apply IH.
  - simpl. rewrite E. f_equal. apply IH.
Qed.

Lemma lstrip_sub_ws (s : str) :
  lstrip (sub_ws false s) = sub_ws false (lstrip s).
Proof.
  destruct s as [|c r]; simpl; [reflexivity|].
  destruct (isspace c) eqn:E; simpl.
  - rewrite ?isspace_space, sub_ws_true_lstrip.
    apply lstrip_fix, sub_ws_head_ok, lstrip_head_ok.
  - now rewrite E.
Qed.

Lemma sub_ws_cons_space (c : ascii) (r : str) (b : bool) :
  isspace c = true ->
  sub_ws b (c :: r) = if b then sub_ws true r else space :: sub_ws true r.
Proof. intros E. simpl. now rewrite E. Qed.

Lemma sub_ws_cons_word (c : ascii) (r : str) (b : bool) :
  isspace c = false -> sub_ws b (c :: r) = c :: sub_ws false r.
Proof. intros E. simpl. now rewrite E. Qed.

Lemma rstrip_sub_ws (b : bool) (s : str) :
  rstrip (sub_ws b s) = sub_ws b (rstrip s).
Proof.
  revert b. induction s as [|c r IH]; intros b; [reflexivity|].
  destruct (isspace c) eqn:E.
  - rewrite (rstrip_cons_space c r E), (sub_ws_cons_space c r b E).
    pose proof (IH true) as IHt. pose proof (rstrip_idem r) as Hid.
    destruct (rstrip r) as [|x y].
    + destruct b; [exact IHt|].
      rewrite (rstrip_cons_space space _ isspace_space), IHt. reflexivity.
    + rewrite (sub_ws_cons_space c (x :: y) b E).
      destruct b; [exact IHt|].
      rewrite (rstrip_cons_space space _ isspace_space), IHt.
      destruct (sub_ws true (x :: y)) eqn:R'; [|reflexivity].
      apply sub_ws_nil_allspace, rstrip_allspace in R'.
      rewrite Hid in R'. discriminate.
  - rewrite (rstrip_cons_word c r E), !(sub_ws_cons_word c _ b E).
    rewrite (rstrip_cons_word c _ E). f_equal. apply IH.
Qed.

Lemma strip_sub_ws (s : str) : strip (re_sub_ws s) = re_sub_ws (strip s).
Proof.
  unfold strip, re_sub_ws. now rewrite lstrip_sub_ws, rstrip_sub_ws.
Qed.


(** ** Lowercasing commutes with the whitespace steps *)

Lemma lstrip_lower (s : str) : lstrip (lower s) = lower (lstrip s).
Proof.
  induction s as [|c r IH]; simpl; [reflexivity|].
  rewrite isspace_lower_char. now destruct (isspace c).
Qed.

Lemma rstrip_lower (s : str) : rstrip (lower s) = lower (rstrip s).
Proof.
  induction s as [|c r IH]; simpl; [reflexivity|].
  fold (lower r). rewrite IH, isspace_lower_char.
  destruct (rstrip r); simpl; [now destruct (isspace c)|reflexivity].
Qed.

Lemma sub_ws_lower (b : bool) (s : str) : sub_ws b (lower s) = lower (sub_ws b s).
Proof.
  revert b. induction s as [|c r IH]; intros b; simpl; [reflexivity|].
  rewrite isspace_lower_char.
  destruct (isspace c); [destruct b|]; simpl; now rewrite <- ?IH.
Qed.

Lemma lower_idem (s : str) : lower (lower s) = lower s.
Proof.
  unfold lower. rewrite map_map. apply map_ext. apply lower_char_idem.
Qed.

Lemma preprocess_lower_last (s : str) : preprocess s = lower (re_sub_ws (strip s)).
Proof.
  unfold preprocess, strip, re_sub_ws.
  now rewrite lstrip_lower, rstrip_lower, sub_ws_lower.
Qed.


Lemma strip_idem (s : str) : strip (strip s) = strip s.
Proof.
  unfold strip.
  rewrite (lstrip_fix _ (rstrip_head_ok _ (lstrip_head_ok s))). apply rstrip_idem.
Qed.

Lemma normal_fix (s : str) :
  re_sub_ws (strip (re_sub_ws (strip s))) = re_sub_ws (strip s).
Proof.
  rewrite strip_sub_ws, strip_idem. unfold re_sub_ws. apply sub_ws_idem.
Qed.

Lemma preprocess_idem (t : str) : preprocess (preprocess t) = preprocess t.
Proof.
  rewrite (preprocess_lower_last t).
  change (preprocess (lower (re_sub_ws (strip t))))
    with (re_sub_ws (strip (lower (lower (re_sub_ws (strip t)))))).
  rewrite lower_idem.
  change (re_sub_ws (strip (lower (re_sub_ws (strip t)))))
    with (preprocess (re_sub_ws (strip t))).
  now rewrite preprocess_lower_last, normal_fix.
Qed.

Lemma preprocess_nil : preprocess [] = [].
Proof. reflexivity. Qed.

(** ** Matching *)

Lemma starts_with_spec (p s rest : str) :
  starts_with p s = Some rest <-> s = p ++ rest.
Proof.
  revert s. induction p as [|a p IH]; intros s; simpl.
  - split; [now intros [= ->] | now intros ->].
  - destruct s as [|b s]; [split; discriminate|].
    destruct (Ascii.eqb a b) eqn:E.
    + apply Ascii.eqb_eq in E as ->. rewrite IH.
      split; [now intros -> | now intros [= ->]].
    + split; [discriminate|]. intros [= -> _].
      now rewrite Ascii.eqb_refl in E.
Qed.

Lemma starts_with_app (p rest : str) : starts_with p (p ++ rest) = Some rest.
Proof. now apply starts_with_spec. Qed.

Lemma contains_occurs (w t : str) : contains w t = true <-> occurs_in w t.
Proof.
  unfold occurs_in. induction t as [|c r IH]; simpl.
  - destruct (starts_with w []) as [rest|] eqn:E.
    + apply starts_with_spec in E. split; [|reflexivity].
      intros _. now exists [], rest.
    + split; [discriminate|]. intros (pre & post & H).
      destruct pre; [|discriminate]. simpl in H.
      rewrite H, starts_with_app in E. discriminate.
  - destruct (starts_with w (c :: r)) as [rest|] eqn:E.
    + apply starts_with_spec in E. split; [|reflexivity].
      intros _. now exists [], rest.
    + rewrite IH. split.
      * intros (pre & post & ->). now exists (c :: pre), post.
      * intros (pre & post & H). destruct pre as [|x pre].
        -- simpl in H. rewrite H, starts_with_app in E. discriminate.
        -- injection H as -> ->. now exists pre, post.
Qed.

Lemma last_char_app (prev : option ascii) (a b : str) :
  last_char prev (a ++ b) = last_char (last_char prev a) b.
Proof. unfold last_char. apply fold_left_app. Qed.

Lemma match_here_spec (prev : option ascii) (kw s : str) :
  match_here prev kw s = true <->
  exists post, s = kw ++ post /\
    boundary prev (hd_error (kw ++ post)) = true /\
    boundary (last_char prev kw) (hd_error post) = true.
Proof.
  unfold match_here. rewrite andb_true_iff. split.
  - intros [Hb Hm]. destruct (starts_with kw s) as [rest|] eqn:E; [|discriminate].
    apply starts_with_spec in E. subst s. now exists rest.
  - intros (post & -> & Hb & He). now rewrite starts_with_app.
Qed.

Lemma search_from_spec (prev : option ascii) (kw s : str) :
  search_from prev kw s = true <-> word_match_after prev kw s.
Proof.
  unfold word_match_after. revert prev.
  induction s as [|c r IH]; intros prev; simpl; rewrite orb_true_iff.
  - rewrite match_here_spec. split.
    + intros [(post & H & Hb & He) | H]; [|discriminate].
      exists [], post. now rewrite last_char_app.
    + intros (pre & post & H & Hb & He). left.
      destruct pre; [|discriminate]. exists post.
      now rewrite last_char_app in He.
  - rewrite match_here_spec, IH. split.
    + intros [(post & H & Hb & He) | (pre & post & H & Hb & He)].
      * exists [], post. now rewrite last_char_app.
      * exists (c :: pre), post. simpl. now rewrite H.
    + intros (pre & post & H & Hb & He). destruct pre as [|x pre].
      * left. exists post. now rewrite last_char_app in He.
      * right. injection H as -> ->. now exists pre, post.
Qed.

Lemma re_search_word_spec (kw t : str) :
  re_search_word kw t = true <-> word_match kw t.
Proof. apply search_from_spec. Qed.

(** [contains_crisis] holds exactly when a crisis phrase occurs between
    word boundaries in the normalised text. *)
Lemma contains_crisis_spec (text : str) :
  contains_crisis text = true <->
  exists kw, In kw CRISIS_KEYWORDS /\ word_match kw (preprocess text).
Proof.
  unfold contains_crisis. rewrite existsb_exists.
  split; intros (kw & Hin & H); exists kw; split; trivial;
    now apply re_search_word_spec.
Qed.

(** ** The store *)

Lemma str_eqb_eq (a b : str) : str_eqb a b = true <-> a = b.
Proof.
  revert b. induction a as [|x a IH]; intros [|y b]; simpl;
    try (split; [discriminate | discriminate]); [tauto|].
  rewrite andb_true_iff, Ascii.eqb_eq, IH.
  split; [now intros [-> ->] | now intros [= -> ->]].
Qed.

Lemma str_eqb_refl (a : str) : str_eqb a a = true.
Proof. now apply str_eqb_eq. Qed.

Lemma str_eqb_neq (a b : str) : a <> b -> str_eqb a b = false.
Proof.
  intros H. destruct (str_eqb a b) eqn:E; [|reflexivity].
  now apply str_eqb_eq in E.
Qed.

Lemma StronglySorted_snoc (A : Type) (R : A -> A -> Prop) (l : list A) (x : A) :
  StronglySorted R l -> Forall (fun y => R y x) l -> StronglySorted R (l ++ [x]).
Proof.
  induction 1 as [|a l Hs IH Ha]; intros Hx; simpl.
  - repeat constructor.
  - inversion Hx as [|? ? Hax Hlx]; subst. constructor; [now apply IH|].
    apply Forall_app. split; [exact Ha|]. now constructor.
Qed.

Lemma StronglySorted_filter (A : Type) (R : A -> A -> Prop) (f : A -> bool)
    (l : list A) :
  StronglySorted R l -> StronglySorted R (filter f l).
Proof.
  induction 1 as [|a l Hs IH Ha]; simpl; [constructor|].
  destruct (f a); [|exact IH]. constructor; [exact IH|].
  rewrite Forall_forall in *. intros x Hx. apply filter_In in Hx. now apply Ha.
Qed.

Lemma ids_ok_init : ids_ok (init_db None).
Proof. split; constructor. Qed.

Lemma ids_ok_save (user role text : str) (c : option Q) (now : str) (d : database) :
  ids_ok d -> ids_ok (save_message user role text c now d).
Proof.
  intros [Hs Hb]. split; simpl.
  - apply StronglySorted_snoc; [exact Hs|].
    eapply Forall_impl; [|exact Hb]. unfold id_lt. simpl. intros; lia.
  - apply Forall_app. split.
    + eapply Forall_impl; [|exact Hb]. simpl. intros; lia.
    + repeat constructor. simpl. lia.
Qed.

Lemma fold_append_ok (calls : list append) (d : database) :
  ids_ok d -> ids_ok (fold_left apply_append calls d).
Proof.
  revert d. induction calls as [|a calls IH]; intros d H; simpl; [exact H|].
  apply IH. now apply ids_ok_save.
Qed.

Lemma ids_ok_run (calls : list append) : ids_ok (run calls).
Proof. apply fold_append_ok, ids_ok_init. Qed.

Lemma insert_desc_least (m : row) (l : list row) :
  Forall (id_lt m) l -> insert_desc m l = l ++ [m].
Proof.
  induction 1 as [|x l Hx Hl IH]; simpl; [reflexivity|].
  unfold id_lt in Hx. destruct (m_id x <? m_id m)%Z eqn:E.
  - apply Z.ltb_lt in E. lia.
  - now rewrite IH.
Qed.

(** On a table whose ids grow with the insertion order, ORDER BY id DESC
    is the reversal. *)
Lemma order_by_id_desc_rev (l : list row) :
  StronglySorted id_lt l -> order_by_id_desc l = rev l.
Proof.
  induction 1 as [|m l Hs IH Hm]; simpl; [reflexivity|].
  rewrite IH. apply insert_desc_least.
  rewrite Forall_forall in *. intros x Hx. apply Hm. now apply in_rev.
Qed.

Lemma fold_append_messages (calls : list append) (d : database) :
  map columns (messages (fold_left apply_append calls d))
  = map columns (messages d) ++ map written calls
  /\ map m_user (messages (fold_left apply_append calls d))
     = map m_user (messages d) ++ map a_user calls.
Proof.
  revert d. induction calls as [|a calls IH]; intros d; simpl.
  - now rewrite !app_nil_r.
  - destruct (IH (apply_append d a)) as [-> ->]. simpl.
    now rewrite !map_app, <- !app_assoc.
Qed.

Lemma where_user_columns (user : str) (l : list row) (calls : list append) :
  map columns l = map written calls ->
  map m_user l = map a_user calls ->
  map columns (where_user user l) = map written (by_user user calls).
Proof.
  revert calls. induction l as [|m l IH]; intros [|a calls];
    try discriminate; [reflexivity|].
  intros Hc Hu.
  pose proof (f_equal (hd (columns m)) Hc) as Hc1.
  pose proof (f_equal (@tl _) Hc) as Hcs.
  pose proof (f_equal (hd (m_user m)) Hu) as Hu1.
  pose proof (f_equal (@tl _) Hu) as Hus.
  cbn [map hd tl] in Hc1, Hcs, Hu1, Hus.
  specialize (IH calls Hcs Hus).
  unfold where_user, by_user in *. cbn [filter]. rewrite Hu1.
  destruct (str_eqb (a_user a) user); cbn [map]; now rewrite ?Hc1, IH.
Qed.

Lemma run_columns (user : str) (calls : list append) :
  map columns (where_user user (messages (run calls)))
  = map written (by_user user calls).
Proof.
  destruct (fold_append_messages calls (init_db None)) as [Hc Hu].
  now apply where_user_columns.
Qed.

Lemma sql_limit_map (A B : Type) (f : A -> B) (limit : Z) (l : list A) :
  map f (sql_limit limit l) = sql_limit limit (map f l).
Proof.
  unfold sql_limit. destruct (limit <? 0)%Z; [reflexivity|].
  symmetry. apply firstn_map.
Qed.

(** [get_history] in terms of the calls that built the table. *)
Lemma get_history_run (user : str) (limit : Z) (calls : list append) :
  get_history user limit (run calls)
  = if int64 limit
    then Some (rev (sql_limit limit (rev (map written (by_user user calls)))))
    else None.
Proof.
  unfold get_history, select_history. destruct (int64 limit); [|reflexivity].
  rewrite order_by_id_desc_rev
    by (apply StronglySorted_filter, (ids_ok_run calls)).
  now rewrite sql_limit_map, map_rev, run_columns.
Qed.

Lemma rev_firstn_rev (A : Type) (n : nat) (l : list A) :
  rev (firstn n (rev l)) = lastn n l.
Proof. unfold lastn. now rewrite firstn_rev, rev_involutive. Qed.

Lemma lastn_length (A : Type) (n : nat) (l : list A) :
  (List.length (lastn n l) <= n)%nat.
Proof. unfold lastn. rewrite length_skipn. lia. Qed.

Lemma lastn_map (A B : Type) (f : A -> B) (n : nat) (l : list A) :
  lastn n (map f l) = map f (lastn n l).
Proof. unfold lastn. now rewrite length_map, skipn_map. Qed.

Lemma lastn_one_snoc (A : Type) (l : list A) (x : A) : lastn 1 (l ++ [x]) = [x].
Proof.
  unfold lastn. rewrite length_app. simpl.
  replace (List.length l + 1 - 1)%nat with (List.length l + 0)%nat by lia.
  now rewrite skipn_app, Nat.add_0_r, skipn_all, Nat.sub_diag.
Qed.

Lemma by_user_snoc (user : str) (calls : list append) (a : append) :
  a_user a = user -> by_user user (calls ++ [a]) = by_user user calls ++ [a].
Proof.
  intros <-. unfold by_user. rewrite filter_app. simpl.
  now rewrite str_eqb_refl.
Qed.

Lemma by_user_without (u1 u2 : str) (calls : list append) :
  u1 <> u2 -> by_user u1 (without_user u2 calls) = by_user u1 calls.
Proof.
  intros Hne. unfold by_user, without_user.
  induction calls as [|a calls IH]; simpl; [reflexivity|].
  destruct (str_eqb (a_user a) u2) eqn:E2; simpl.
  - apply str_eqb_eq in E2. rewrite (str_eqb_neq (a_user a) u1) by congruence.
    exact IH.
  - destruct (str_eqb (a_user a) u1); now rewrite IH.
Qed.

(** ** The handler *)

Lemma random_choice_spec (A : Type) (pool : list A) (w : world) :
  pool <> [] ->
  exists x, In x pool /\
    random_choice pool w = Some (x, {| db := db w; gen := advance (gen w) |}).
Proof.
  intros Hne. unfold random_choice.
  set (i := (draws (gen w) (used (gen w)) mod List.length pool)%nat).
  assert (Hi : (i < List.length pool)%nat).
  { apply Nat.mod_upper_bound. destruct pool; [now elim Hne | discriminate]. }
  destruct (nth_error pool i) as [x|] eqn:E.
  - exists x. split; [now apply nth_error_In with i | reflexivity].
  - apply nth_error_None in E. lia.
Qed.

Lemma pick_response_spec (s : sentiment) (w : world) :
  exists base, In base (responses s) /\
    pick_response s w = Some (base, {| db := db w; gen := advance (gen w) |}).
Proof. destruct s; apply random_choice_spec; discriminate. Qed.

Lemma get_coping_tip_spec (w : world) :
  exists tip, In tip COPING_TIPS /\
    get_coping_tip w = Some (tip, {| db := db w; gen := advance (gen w) |}).
Proof. apply random_choice_spec. discriminate. Qed.

Lemma bucket_reply_negative (tags : list str) (w : world) :
  exists base tip,
    In base NEGATIVE_RESPONSES /\ In tip COPING_TIPS /\
    bucket_reply negative tags w
    = Some (base ++ py " Tip: " ++ tip,
            {| db := db w; gen := advance (advance (gen w)) |}).
Proof.
  destruct (pick_response_spec negative w) as (base & Hb & E).
  destruct (get_coping_tip_spec {| db := db w; gen := advance (gen w) |})
    as (tip & Ht & E').
  exists base, tip. repeat split; trivial.
  unfold bucket_reply, bind. rewrite E. unfold bind. now rewrite E'.
Qed.

Lemma bucket_reply_neutral_tags (tag : str) (tags : list str) (w : world) :
  exists base,
    In base NEUTRAL_RESPONSES /\
    bucket_reply neutral (tag :: tags) w
    = Some (base ++ tags_sentence (tag :: tags),
            {| db := db w; gen := advance (gen w) |}).
Proof.
  destruct (pick_response_spec neutral w) as (base & Hb & E).
  exists base. split; trivial. unfold bucket_reply, bind. now rewrite E.
Qed.

Lemma bucket_reply_bare (s : sentiment) (tags : list str) (w : world) :
  s = positive \/ (s = neutral /\ tags = []) ->
  exists base,
    In base (responses s) /\
    bucket_reply s tags w = Some (base, {| db := db w; gen := advance (gen w) |}).
Proof.
  intros H. destruct (pick_response_spec s w) as (base & Hb & E).
  exists base. split; trivial. unfold bucket_reply, bind. rewrite E.
  destruct H as [-> | [-> ->]]; reflexivity.
Qed.

(** The bucket branch never raises and never writes. *)
Lemma bucket_reply_total (s : sentiment) (tags : list str) (w : world) :
  exists reply w', bucket_reply s tags w = Some (reply, w') /\ db w' = db w.
Proof.
  destruct s.
  - destruct (bucket_reply_bare positive tags w (or_introl eq_refl))
      as (base & _ & E). eexists _, _; split; [exact E | reflexivity].
  - destruct tags as [|tag tags].
    + destruct (bucket_reply_bare neutral [] w (or_intror (conj eq_refl eq_refl)))
        as (base & _ & E). eexists _, _; split; [exact E | reflexivity].
    + destruct (bucket_reply_neutral_tags tag tags w) as (base & _ & E).
      eexists _, _; split; [exact E | reflexivity].
  - destruct (bucket_reply_negative tags w) as (base & tip & _ & _ & E).
    eexists _, _; split; [exact E | reflexivity].
Qed.

Section Turn.

Variable polarity_scores : str -> scores.
Variables username user_input now_user now_bot : str.
Variable w : world.

Let c : Q := compound (sentiment_scores polarity_scores user_input).

(** The world once the user's row is written. *)
Let w1 : world :=
  {| db := save_message username (py "user") user_input (Some c) now_user (db w);
     gen := gen w |}.

Lemma turn_crisis :
  contains_crisis user_input || Qle_bool c (-0.85) = true ->
  turn polarity_scores username user_input now_user now_bot w
  = Some (CRISIS_MESSAGE,
          {| db := save_message username (py "bot") CRISIS_MESSAGE None now_bot (db w1);
             gen := gen w |}).
Proof.
  intros H. unfold turn, bind, store, ret. fold c. now rewrite H.
Qed.

Lemma turn_bucket :
  contains_crisis user_input || Qle_bool c (-0.85) = false ->
  turn polarity_scores username user_input now_user now_bot w
  = match bucket_reply (bucket c) (extract_tags user_input) w1 with
    | Some (reply, w2) =>
        Some (reply,
              {| db := save_message username (py "bot") reply None now_bot (db w2);
                 gen := gen w2 |})
    | None => None
    end.
Proof.
  intros H. unfold turn, bind, store, ret. fold c. rewrite H. fold w1.
  destruct (bucket_reply (bucket c) (extract_tags user_input) w1) as [[reply w2]|];
    reflexivity.
Qed.

(** A turn ends, and its two writes are the only ones. *)
Lemma turn_rows :
  exists reply w',
    turn polarity_scores username user_input now_user now_bot w = Some (reply, w') /\
    db w' = save_message username (py "bot") reply None now_bot (db w1).
Proof.
  destruct (contains_crisis user_input || Qle_bool c (-0.85)) eqn:E.
  - rewrite (turn_crisis E). eexists _, _; split; reflexivity.
  - rewrite (turn_bucket E).
    destruct (bucket_reply_total (bucket c) (extract_tags user_input) w1)
      as (reply & w2 & -> & Hdb).
    eexists _, _. split; [reflexivity|]. simpl. now rewrite Hdb.
Qed.

End Turn.

(** * The claims of the specification *)

(** C1.  Whenever the normalised text holds one of the crisis phrases
    between word boundaries, or the compound score is at most -0.85, the
    reply of the turn is exactly [CRISIS_MESSAGE].  The generator comes out
    as it went in: [pick_response], and with it the whole sentiment-bucket
    branch, was not run. *)
Theorem crisis_override (polarity_scores : str -> scores)
    (username user_input now_user now_bot : str) (w : world) :
  (exists kw, In kw CRISIS_KEYWORDS /\ word_match kw (preprocess user_input)) \/
  compound (sentiment_scores polarity_scores user_input) <= -0.85 ->
  exists w',
    turn polarity_scores username user_input now_user now_bot w
    = Some (CRISIS_MESSAGE, w') /\
    gen w' = gen w.
Proof.
  intros H. eexists. split; [apply turn_crisis|reflexivity].
  apply orb_true_iff. destruct H as [H | H].
  - left. now apply contains_crisis_spec.
  - right. now apply Qle_bool_iff.
Qed.

Lemma crisis_override_witness :
  exists w',
    turn toy_sia (py "Guest") (py "I want to  END my life") (py "t1") (py "t2")
      new_world
    = Some (CRISIS_MESSAGE, w') /\
    gen w' = gen new_world.
Proof.
  apply crisis_override. left. exists (py "end my life").
  split; [do 2 right; left; reflexivity|].
  exists (py "i want to "), []. repeat split.
Defined.

Lemma bucket_cases (s : Q) :
  (0.05 <= s /\ bucket s = positive) \/
  (~ 0.05 <= s /\ s <= -0.05 /\ bucket s = negative) \/
  (~ 0.05 <= s /\ ~ s <= -0.05 /\ bucket s = neutral).
Proof.
  unfold bucket.
  destruct (Qle_bool 0.05 s) eqn:Hp; [left; split; trivial; now apply Qle_bool_iff|].
  apply not_true_iff_false in Hp. rewrite Qle_bool_iff in Hp. right.
  destruct (Qle_bool s (-0.05)) eqn:Hn;
    [left; repeat split; trivial; now apply Qle_bool_iff|].
  apply not_true_iff_false in Hn. rewrite Qle_bool_iff in Hn. right. tauto.
Qed.

(** C2.  The bucket of a compound score is "positive" exactly from 0.05
    upwards, "negative" exactly from -0.05 downwards and "neutral" strictly
    in between; the four boundary values fall as the specification lists
    them.  This holds for every score, hence for those of [-1, 1] that do
    not trigger the crisis override. *)
Theorem bucket_thresholds (s : Q) :
  (bucket s = positive <-> 0.05 <= s) /\
  (bucket s = negative <-> s <= -0.05) /\
  (bucket s = neutral <-> -0.05 < s /\ s < 0.05) /\
  bucket 0.05 = positive /\ bucket 0.0499 = neutral /\
  bucket (-0.05) = negative /\ bucket (-0.0499) = neutral.
Proof.
  pose proof (bucket_cases s) as Hcases.
  split; [|split; [|split; [|repeat split]]];
    try (destruct Hcases as [(H1 & E) | [(H1 & H2 & E) | (H1 & H2 & E)]];
         rewrite E; split; intros H; try discriminate; try reflexivity;
         try (split; lra); try lra).
Qed.



(** C4.  [extract_tags] returns exactly the topics one of whose words occurs
    somewhere in the normalised text, as a plain substring, and returns
    them in the order the mapping declares them: the result is the list
    stress, anxiety, depressed, sleep, exam with the topics that were not
    found left out. *)
Theorem extract_tags_spec (text : str) :
  (forall tag,
     In tag (extract_tags text) <->
     exists words w,
       In (tag, words) COMMON_KEYWORDS /\ In w words /\
       occurs_in w (preprocess text)) /\
  extract_tags text
  = filter (fun tag => existsb (str_eqb tag) (extract_tags text)) TOPICS.
Proof.
  split.
  - intros tag. unfold extract_tags. rewrite in_map_iff. split.
    + intros ([tag' words] & <- & H). apply filter_In in H as [Hin H].
      apply existsb_exists in H as (w0 & Hw & H).
      exists words, w0. repeat split; trivial. now apply contains_occurs.
    + intros (words & w0 & Hin & Hw & H). exists (tag, words). split; trivial.
      apply filter_In. split; trivial. apply existsb_exists.
      exists w0. split; trivial. now apply contains_occurs.
  - unfold extract_tags, COMMON_KEYWORDS, TOPICS. cbn [filter snd].
    repeat match goal with
           | |- context [existsb (fun w0 => contains w0 ?t) ?l] =>
               destruct (existsb (fun w0 => contains w0 t) l)
           end; reflexivity.
Qed.

Lemma run_snoc (calls : list append) (a : append) :
  run (calls ++ [a]) = apply_append (run calls) a.
Proof. unfold run. now rewrite fold_left_app. Qed.

Lemma sql_limit_In (A : Type) (limit : Z) (l : list A) (x : A) :
  In x (sql_limit limit l) -> In x l.
Proof.
  unfold sql_limit. destruct (limit <? 0)%Z; [trivial|].
  intros H. rewrite <- (firstn_skipn (Z.to_nat limit) l).
  apply in_or_app. now left.
Qed.

Lemma select_history_In (user : str) (limit : Z) (calls : list append) (m : row) :
  In m (select_history user limit (run calls)) ->
  In m (messages (run calls)) /\ m_user m = user.
Proof.
  unfold select_history. intros H. apply sql_limit_In in H.
  rewrite order_by_id_desc_rev in H
    by (apply StronglySorted_filter, (ids_ok_run calls)).
  apply in_rev, filter_In in H as [Hin H]. split; trivial.
  now apply str_eqb_eq.
Qed.

Lemma int64_nonneg (limit : Z) : (0 <= limit < 2 ^ 63)%Z -> int64 limit = true.
Proof.
  intros [H0 H1]. unfold int64. apply andb_true_iff. split.
  - apply Z.leb_le. change (- 2 ^ 63)%Z with (-9223372036854775808)%Z. lia.
  - now apply Z.ltb_lt.
Qed.

Lemma history_nonneg (user : str) (limit : Z) (calls : list append) :
  (0 <= limit < 2 ^ 63)%Z ->
  get_history user limit (run calls)
  = Some (map written (lastn (Z.to_nat limit) (by_user user calls))).
Proof.
  intros H. rewrite get_history_run, (int64_nonneg _ H). unfold sql_limit.
  destruct (limit <? 0)%Z eqn:E; [apply Z.ltb_lt in E; lia|].
  now rewrite rev_firstn_rev, lastn_map.
Qed.

(** C5, as amended.  For a limit from 0 up to the largest SQLite integer,
    [get_history] returns the last [limit] rows written for the user (all
    of them when there are fewer), in the order they were written; so it
    returns at most [limit] rows, and right after a [save_message] for the
    user the history of limit 1 is exactly the row just written. *)
Theorem history_most_recent (calls : list append) (user : str) (limit : Z) :
  (0 <= limit < 2 ^ 63)%Z ->
  get_history user limit (run calls)
  = Some (map written (lastn (Z.to_nat limit) (by_user user calls))) /\
  (forall rows,
     get_history user limit (run calls) = Some rows ->
     (Z.of_nat (List.length rows) <= limit)%Z) /\
  (forall role text score now,
     get_history user 1 (save_message user role text score now (run calls))
     = Some [(role, text, score, now)]).
Proof.
  intros H. split; [now apply history_nonneg|]. split.
  - intros rows. rewrite (history_nonneg _ _ _ H). intros [= <-].
    rewrite length_map.
    pose proof (lastn_length _ (Z.to_nat limit) (by_user user calls)). lia.
  - intros role text score now.
    set (a := {| a_user := user; a_role := role; a_text := text;
                 a_compound := score; a_now := now |}).
    change (save_message user role text score now (run calls))
      with (apply_append (run calls) a).
    rewrite <- run_snoc, history_nonneg by (split; [lia | reflexivity]).
    rewrite (by_user_snoc user calls a eq_refl).
    change (Z.to_nat 1) with 1%nat. now rewrite lastn_one_snoc.
Qed.

Lemma history_most_recent_witness :
  get_history (py "Guest") 2 (run two_users)
  = Some (map written (lastn (Z.to_nat 2) (by_user (py "Guest") two_users))) /\
  (forall rows,
     get_history (py "Guest") 2 (run two_users) = Some rows ->
     (Z.of_nat (List.length rows) <= 2)%Z) /\
  (forall role text score now,
     get_history (py "Guest") 1
       (save_message (py "Guest") role text score now (run two_users))
     = Some [(role, text, score, now)]).
Proof.
  apply (history_most_recent two_users (py "Guest") 2).
  split; [lia | reflexivity].
Defined.

(** C5 as the specification states it fails for a negative limit: SQLite puts
    no bound on the rows, and the history of limit -1 holds the three rows
    of the user. *)
Lemma history_negative_limit :
  get_history (py "Guest") (-1) (run two_users)
  = Some [ (py "user", py "hello", Some 0, py "2024-01-01T10:00:00");
           (py "bot", py "I see.", None, py "2024-01-01T10:00:02");
           (py "user", py "great day", Some 0.6, py "2024-01-01T10:00:04") ] /\
  ~ (forall rows,
       get_history (py "Guest") (-1) (run two_users) = Some rows ->
       (Z.of_nat (List.length rows) <= -1)%Z).
Proof.
  split; [reflexivity|]. intros H.
  specialize (H _ eq_refl). simpl in H. lia.
Qed.

(** C6.  For two distinct users, every row the query of [get_history]
    selects for the first is a row of the table written under the first,
    none under the second; and the history of the first is what it is when
    the calls of the second are taken out of the run. *)
Theorem history_isolated (u1 u2 : str) (calls : list append) (limit : Z) :
  u1 <> u2 ->
  Forall (fun m => In m (messages (run calls)) /\
                   m_user m = u1 /\ m_user m <> u2)
    (select_history u1 limit (run calls)) /\
  get_history u1 limit (run calls)
  = get_history u1 limit (run (without_user u2 calls)).
Proof.
  intros Hne. split.
  - apply Forall_forall. intros m Hm.
    apply select_history_In in Hm as [Hin Hu]. repeat split; trivial.
    congruence.
  - now rewrite !get_history_run, by_user_without.
Qed.

Lemma history_isolated_witness :
  Forall (fun m => In m (messages (run two_users)) /\
                   m_user m = py "Guest" /\ m_user m <> py "Ana")
    (select_history (py "Guest") 500 (run two_users)) /\
  get_history (py "Guest") 500 (run two_users)
  = get_history (py "Guest") 500 (run (without_user (py "Ana") two_users)).
Proof.
  apply (history_isolated (py "Guest") (py "Ana") two_users 500).
  discriminate.
Defined.


(** C8.  A turn returns a reply for every text, whatever the analyser, the
    database and the generator: none of its steps raises.  The empty text
    has no crisis phrase and no tag, and when the analyser scores it 0 its
    bucket is neutral and its reply is a bare neutral template. *)
Theorem classification_total (polarity_scores : str -> scores)
    (username user_input now_user now_bot : str) (w : world) :
  (exists reply w',
     turn polarity_scores username user_input now_user now_bot w
     = Some (reply, w')) /\
  contains_crisis [] = false /\
  extract_tags [] = [] /\
  (compound (polarity_scores []) == 0 ->
   bucket (compound (sentiment_scores polarity_scores [])) = neutral /\
   exists reply w',
     turn polarity_scores username [] now_user now_bot w = Some (reply, w') /\
     In reply NEUTRAL_RESPONSES).
Proof.
  split; [|split; [reflexivity|split; [reflexivity|]]].
  - destruct (turn_rows polarity_scores username user_input now_user now_bot w)
      as (reply & w' & E & _). now exists reply, w'.
  - intros H0.
    change (sentiment_scores polarity_scores []) with (polarity_scores []).
    assert (Hb : bucket (compound (polarity_scores [])) = neutral).
    { destruct (bucket_cases (compound (polarity_scores [])))
        as [(H1 & _) | [(_ & H1 & _) | (_ & _ & E)]]; trivial; lra. }
    split; [exact Hb|].
    assert (E : contains_crisis []
                || Qle_bool (compound (sentiment_scores polarity_scores [])) (-0.85)
                = false).
    { change (contains_crisis []) with false. simpl.
      apply not_true_iff_false. rewrite Qle_bool_iff.
      change (sentiment_scores polarity_scores []) with (polarity_scores []). lra. }
    rewrite (turn_bucket _ _ _ _ _ _ E).
    change (sentiment_scores polarity_scores []) with (polarity_scores []).
    rewrite Hb. change (extract_tags []) with (@nil str).
    set (w1 := {| db := _; gen := gen w |}).
    destruct (bucket_reply_bare neutral [] w1 (or_intror (conj eq_refl eq_refl)))
      as (base & Hin & ->).
    now eexists _, _.
Qed.

Lemma classification_total_witness :
  bucket (compound (sentiment_scores toy_sia [])) = neutral /\
  exists reply w',
    turn toy_sia (py "Guest") [] (py "t1") (py "t2") new_world = Some (reply, w') /\
    In reply NEUTRAL_RESPONSES.
Proof.
  apply (classification_total toy_sia (py "Guest") [] (py "t1") (py "t2") new_world).
  reflexivity.
Defined.

(** C9.  Every turn, a crisis turn as any other, ends with exactly two more
    rows in the table: first the user's row with the compound score just
    computed, then the bot's row with the reply shown and no score.  The
    handler runs a turn when Send is pressed on a text that is not empty,
    and writes nothing otherwise. *)
Theorem turn_writes_two_rows (polarity_scores : str -> scores)
    (username user_input now_user now_bot : str) (w : world) :
  (exists reply w',
     turn polarity_scores username user_input now_user now_bot w
     = Some (reply, w') /\
     messages (db w')
     = messages (db w) ++
       [ {| m_id := sqlite_sequence (db w) + 1;
            m_user := username;
            m_role := py "user";
            m_text := user_input;
            m_compound :=
              Some (compound (sentiment_scores polarity_scores user_input));
            m_timestamp := now_user |};
         {| m_id := sqlite_sequence (db w) + 1 + 1;
            m_user := username;
            m_role := py "bot";
            m_text := reply;
            m_compound := None;
            m_timestamp := now_bot |} ] /\
     (user_input <> [] ->
      on_send polarity_scores true username user_input now_user now_bot w
      = Some (Some reply, w'))) /\
  on_send polarity_scores false username user_input now_user now_bot w
  = Some (None, w) /\
  (forall pressed,
     on_send polarity_scores pressed username [] now_user now_bot w
     = Some (None, w)).
Proof.
  split; [|split; [reflexivity | now intros []]].
  destruct (turn_rows polarity_scores username user_input now_user now_bot w)
    as (reply & w' & E & Hdb).
  exists reply, w'. split; [exact E|]. split.
  - rewrite Hdb. simpl. now rewrite <- app_assoc.
  - intros Hne. unfold on_send. destruct user_input as [|ch rest]; [now elim Hne|].
    unfold bind. now rewrite E.
Qed.

Lemma turn_writes_two_rows_witness :
  exists reply w',
    turn toy_sia (py "Guest") (py "I hate mondays") (py "t1") (py "t2") new_world
    = Some (reply, w') /\
    messages (db w')
    = [ {| m_id := 1; m_user := py "Guest"; m_role := py "user";
           m_text := py "I hate mondays"; m_compound := Some (-0.9);
           m_timestamp := py "t1" |};
        {| m_id := 2; m_user := py "Guest"; m_role := py "bot";
           m_text := reply; m_compound := None;
           m_timestamp := py "t2" |} ] /\
    on_send toy_sia true (py "Guest") (py "I hate mondays") (py "t1") (py "t2")
      new_world
    = Some (Some reply, w').
Proof.
  destruct (turn_writes_two_rows toy_sia (py "Guest") (py "I hate mondays")
              (py "t1") (py "t2") new_world)
    as [(reply & w' & E & Hrows & Hsend) _].
  exists reply, w'. split; [exact E|]. split; [exact Hrows|].
  apply Hsend. discriminate.
Defined.

(** C10.  [preprocess] is idempotent, and [contains_crisis] and
    [extract_tags], which normalise their argument themselves, give the
    same answer on a text and on its normalisation. *)
Theorem preprocess_idempotent (t : str) :
  preprocess (preprocess t) = preprocess t /\
  contains_crisis (preprocess t) = contains_crisis t /\
  extract_tags (preprocess t) = extract_tags t.
Proof.
  unfold contains_crisis, extract_tags. now rewrite preprocess_idem.
Qed.

(** * Further properties of the code *)

(** ** The shape of a normalised text *)


Lemma isword_lower_char (c : ascii) : isword (lower_char c) = isword c.
Proof. by_cases_on_char c. Qed.

Lemma isword_not_space (c : ascii) : isword c = true -> isspace c = false.
Proof. destruct c as [[] [] [] [] [] [] [] []]; vm_compute; congruence. Qed.









(** ** What normalisation keeps *)

Lemma visible_lstrip (s : str) : visible (lstrip s) = visible s.
Proof.
  induction s as [|c r IH]; simpl; [reflexivity|].
  destruct (isspace c) eqn:E; simpl; [exact IH | now rewrite E].
Qed.

Lemma visible_rstrip (s : str) : visible (rstrip s) = visible s.
Proof.
  induction s as [|c r IH]; [reflexivity|].
  destruct (isspace c) eqn:E.
  - rewrite (rstrip_cons_space c r E). simpl. rewrite E. simpl.
    destruct (rstrip r) eqn:R; [exact IH|]. simpl. rewrite E. exact IH.
  - rewrite (rstrip_cons_word c r E). simpl. rewrite E. simpl. now rewrite IH.
Qed.

Lemma visible_sub_ws (b : bool) (s : str) : visible (sub_ws b s) = visible s.
Proof.
  revert b. induction s as [|c r IH]; intros b; simpl; [reflexivity|].
  destruct (isspace c) eqn:E; simpl.
  - destruct b; simpl; apply IH.
  - rewrite E. simpl. now rewrite IH.
Qed.

Lemma visible_lower (s : str) : visible (lower s) = lower (visible s).
Proof.
  induction s as [|c r IH]; simpl; [reflexivity|].
  rewrite isspace_lower_char. destruct (isspace c); simpl; now rewrite IH.
Qed.



Lemma visible_preprocess (t : str) : visible (preprocess t) = lower (visible t).
Proof.
  unfold preprocess, re_sub_ws, strip.
  now rewrite visible_sub_ws, visible_rstrip, visible_lstrip, visible_lower.
Qed.


Lemma visible_nil_allspace (s : str) : visible s = [] <-> allspace s = true.
Proof.
  induction s as [|c r IH]; simpl; [tauto|].
  destruct (isspace c); simpl; [exact IH|]. split; discriminate.
Qed.

Lemma preprocess_nil_iff (t : str) : preprocess t = [] <-> allspace t = true.
Proof.
  split.
  - intros H. apply visible_nil_allspace.
    pose proof (visible_preprocess t) as Hv.
    rewrite H in Hv. simpl in Hv. symmetry in Hv. now apply map_eq_nil in Hv.
  - intros H. apply visible_nil_allspace in H.
    assert (Hl : allspace (lower t) = true).
    { apply visible_nil_allspace. now rewrite visible_lower, H. }
    unfold preprocess, strip.
    assert (Hn : lstrip (lower t) = []).
    { revert Hl. generalize (lower t) as s.
      induction s as [|c r IH]; simpl; [reflexivity|].
      intros Hc. apply andb_prop in Hc as [-> Hr]. now apply IH. }
    now rewrite Hn.
Qed.

(** ** Texts with the same normalisation *)

Lemma random_choice_gen (A : Type) (pool : list A) (w1 w2 w1' : world) (x : A) :
  gen w1 = gen w2 ->
  random_choice pool w1 = Some (x, w1') ->
  random_choice pool w2 = Some (x, {| db := db w2; gen := gen w1' |}).
Proof.
  unfold random_choice. intros <-.
  destruct (nth_error pool _); [|discriminate]. now intros [= -> <-].
Qed.

Lemma pick_response_gen (s : sentiment) (w1 w2 w1' : world) (x : str) :
  gen w1 = gen w2 ->
  pick_response s w1 = Some (x, w1') ->
  pick_response s w2 = Some (x, {| db := db w2; gen := gen w1' |}).
Proof. destruct s; apply random_choice_gen. Qed.

(** The reply of the bucket branch and the generator it leaves depend on
    the generator alone. *)
Lemma bucket_reply_gen (s : sentiment) (tags : list str) (w1 w2 w1' : world)
    (reply : str) :
  gen w1 = gen w2 ->
  bucket_reply s tags w1 = Some (reply, w1') ->
  bucket_reply s tags w2 = Some (reply, {| db := db w2; gen := gen w1' |}).
Proof.
  intros Hg. unfold bucket_reply, bind.
  destruct (pick_response s w1) as [[base wa]|] eqn:E1; [|discriminate].
  rewrite (pick_response_gen s w1 w2 wa base Hg E1).
  destruct s; [| destruct tags |]; unfold ret; try (now intros [= <- <-]).
  unfold get_coping_tip.
  destruct (random_choice COPING_TIPS wa) as [[tip wb]|] eqn:E2; [|discriminate].
  rewrite (random_choice_gen str COPING_TIPS wa
             {| db := db w2; gen := gen wa |} wb tip eq_refl E2).
  now intros [= <- <-].
Qed.

(** X3.  A turn reads its text through [preprocess] only: two texts with
    the same normalisation get the same scores, the same crisis flag and
    the same tags, and from the same generator the same reply, leaving the
    same generator. *)
Theorem same_normalisation_same_reply (polarity_scores : str -> scores)
    (username t1 t2 now_user now_bot : str) (w : world) :
  preprocess t1 = preprocess t2 ->
  sentiment_scores polarity_scores t1 = sentiment_scores polarity_scores t2 /\
  contains_crisis t1 = contains_crisis t2 /\
  extract_tags t1 = extract_tags t2 /\
  option_map (fun r => (fst r, gen (snd r)))
    (turn polarity_scores username t1 now_user now_bot w)
  = option_map (fun r => (fst r, gen (snd r)))
      (turn polarity_scores username t2 now_user now_bot w).
Proof.
  intros H.
  assert (Hs : sentiment_scores polarity_scores t1
               = sentiment_scores polarity_scores t2)
    by (unfold sentiment_scores; now rewrite H).
  assert (Hc : contains_crisis t1 = contains_crisis t2)
    by (unfold contains_crisis; now rewrite H).
  assert (Ht : extract_tags t1 = extract_tags t2)
    by (unfold extract_tags; now rewrite H).
  repeat split; trivial.
  destruct (contains_crisis t1
            || Qle_bool (compound (sentiment_scores polarity_scores t1)) (-0.85))
    eqn:E.
  - rewrite (turn_crisis _ _ _ _ _ _ E). rewrite Hc, Hs in E.
    now rewrite (turn_crisis _ _ _ _ _ _ E).
  - rewrite (turn_bucket _ _ _ _ _ _ E). rewrite Hc, Hs in E.
    rewrite (turn_bucket _ _ _ _ _ _ E). rewrite Hs, Ht.
    set (wa := {| db := save_message username (py "user") t1 _ now_user (db w);
                  gen := gen w |}).
    set (wb := {| db := save_message username (py "user") t2 _ now_user (db w);
                  gen := gen w |}).
    destruct (bucket_reply_total
                (bucket (compound (sentiment_scores polarity_scores t2)))
                (extract_tags t2) wa) as (reply & wa' & Ea & _).
    rewrite Ea, (bucket_reply_gen _ _ wa wb wa' reply eq_refl Ea). reflexivity.
Qed.

Lemma same_normalisation_same_reply_witness :
  sentiment_scores toy_sia (py "  I  FEEL Sad ") = sentiment_scores toy_sia (py "i feel sad") /\
  contains_crisis (py "  I  FEEL Sad ") = contains_crisis (py "i feel sad") /\
  extract_tags (py "  I  FEEL Sad ") = extract_tags (py "i feel sad") /\
  option_map (fun r => (fst r, gen (snd r)))
    (turn toy_sia (py "Guest") (py "  I  FEEL Sad ") (py "t1") (py "t2") new_world)
  = option_map (fun r => (fst r, gen (snd r)))
      (turn toy_sia (py "Guest") (py "i feel sad") (py "t1") (py "t2") new_world).
Proof.
  apply (same_normalisation_same_reply toy_sia (py "Guest") (py "  I  FEEL Sad ")
           (py "i feel sad") (py "t1") (py "t2") new_world).
  reflexivity.
Defined.

(** X4.  A text made of whitespace only is not empty for the handler: Send
    runs a turn on it and writes its two rows.  The turn reads it as the
    empty text: the analyser is asked about the empty text, no crisis
    phrase is found and no tag. *)
Theorem blank_text_turn (polarity_scores : str -> scores)
    (username user_input now_user now_bot : str) (w : world) :
  user_input <> [] ->
  allspace user_input = true ->
  preprocess user_input = [] /\
  sentiment_scores polarity_scores user_input = polarity_scores [] /\
  contains_crisis user_input = false /\
  extract_tags user_input = [] /\
  exists reply w',
    on_send polarity_scores true username user_input now_user now_bot w
    = Some (Some reply, w') /\
    List.length (messages (db w')) = (List.length (messages (db w)) + 2)%nat.
Proof.
  intros Hne Hb. apply preprocess_nil_iff in Hb.
  split; [exact Hb|]. split; [unfold sentiment_scores; now rewrite Hb|].
  split; [unfold contains_crisis; now rewrite Hb|].
  split; [unfold extract_tags; now rewrite Hb|].
  destruct (turn_rows polarity_scores username user_input now_user now_bot w)
    as (reply & w' & E & Hdb).
  exists reply, w'. split.
  - unfold on_send. destruct user_input; [now elim Hne|].
    unfold bind. now rewrite E.
  - rewrite Hdb. simpl. rewrite !length_app. simpl. lia.
Qed.

Lemma blank_text_turn_witness :
  preprocess (py "   ") = [] /\
  sentiment_scores toy_sia (py "   ") = toy_sia [] /\
  contains_crisis (py "   ") = false /\
  extract_tags (py "   ") = [] /\
  exists reply w',
    on_send toy_sia true (py "Guest") (py "   ") (py "t1") (py "t2") new_world
    = Some (Some reply, w') /\
    List.length (messages (db w')) = (List.length (messages (db new_world)) + 2)%nat.
Proof.
  apply (blank_text_turn toy_sia (py "Guest") (py "   ") (py "t1") (py "t2") new_world).
  - discriminate.
  - reflexivity.
Defined.

(** ** Whole words *)




Lemma last_char_snoc (p : option ascii) (s : str) (c : ascii) :
  last_char p (s ++ [c]) = Some c.
Proof. now rewrite last_char_app. Qed.





(** ** A phrase set off from the rest of the text *)

Lemma lstrip_app_word (x y : str) (c : ascii) :
  isspace c = false -> lstrip (x ++ c :: y) = lstrip x ++ c :: y.
Proof.
  intros Hc. induction x as [|a x IH]; simpl; [now rewrite Hc|].
  now destruct (isspace a).
Qed.

Lemma rstrip_app_word (x y : str) (c : ascii) :
  isspace c = false -> rstrip ((x ++ [c]) ++ y) = (x ++ [c]) ++ rstrip y.
Proof.
  intros Hc. induction x as [|a x IH].
  - apply (rstrip_cons_word c y Hc).
  - change (((a :: x) ++ [c]) ++ y) with (a :: (x ++ [c]) ++ y).
    destruct (isspace a) eqn:E.
    + rewrite (rstrip_cons_space a _ E), IH.
      now destruct x.
    + now rewrite (rstrip_cons_word a _ E), IH.
Qed.

Lemma sub_ws_app_head (b : bool) (x y : str) (c : ascii) :
  isspace c = false ->
  sub_ws b (x ++ c :: y) = sub_ws b x ++ sub_ws false (c :: y).
Proof.
  intros Hc. revert b. induction x as [|a x IH]; intros b.
  - simpl. now rewrite Hc.
  - change ((a :: x) ++ c :: y) with (a :: x ++ c :: y).
    destruct (isspace a) eqn:E.
    + rewrite !(sub_ws_cons_space a _ b E), IH. now destruct b.
    + now rewrite !(sub_ws_cons_word a _ b E), IH.
Qed.

Lemma sub_ws_app_last (b : bool) (x y : str) (c : ascii) :
  isspace c = false ->
  sub_ws b ((x ++ [c]) ++ y) = sub_ws b (x ++ [c]) ++ sub_ws false y.
Proof.
  intros Hc. revert b. induction x as [|a x IH]; intros b.
  - simpl. now rewrite Hc.
  - change (((a :: x) ++ [c]) ++ y) with (a :: (x ++ [c]) ++ y).
    change ((a :: x) ++ [c]) with (a :: x ++ [c]).
    destruct (isspace a) eqn:E.
    + rewrite !(sub_ws_cons_space a _ b E), IH. now destruct b.
    + now rewrite !(sub_ws_cons_word a _ b E), IH.
Qed.

Lemma last_char_indep (p q : option ascii) (s : str) :
  s <> [] -> last_char p s = last_char q s.
Proof. destruct s as [|c r]; [now intros H; elim H | reflexivity]. Qed.

Lemma last_char_lower (s : str) :
  word_at (last_char None (lower s)) = word_at (last_char None s).
Proof.
  destruct s as [|c s] using rev_ind; [reflexivity|].
  unfold lower. rewrite map_app. simpl.
  rewrite !last_char_snoc. simpl. apply isword_lower_char.
Qed.

Lemma last_char_lstrip (s : str) :
  word_at (last_char None s) = false -> word_at (last_char None (lstrip s)) = false.
Proof.
  induction s as [|c r IH]; simpl; [trivial|].
  destruct (isspace c); [|trivial]. intros H.
  destruct r as [|d r']; [reflexivity|]. apply IH.
  now rewrite (last_char_indep None (Some c)).
Qed.

(** The last character that [re.sub] leaves is the last one of the text,
    or a space, or, when the text is swallowed by the run before it, what
    came before. *)
Lemma last_char_sub_ws (b : bool) (p : option ascii) (s : str) :
  last_char p (sub_ws b s) = last_char p s \/
  last_char p (sub_ws b s) = Some space \/
  (b = true /\ last_char p (sub_ws b s) = p).
Proof.
  revert b p. induction s as [|c r IH]; intros b p; [now left|].
  destruct (isspace c) eqn:E.
  - rewrite (sub_ws_cons_space c r b E). destruct b.
    + destruct (IH true p) as [H | [H | H]]; [|tauto|tauto].
      destruct r as [|d r']; [right; right; now split|].
      left. rewrite H.
      change (last_char p (c :: d :: r')) with (last_char (Some c) (d :: r')).
      now apply last_char_indep.
    + change (last_char p (space :: sub_ws true r))
        with (last_char (Some space) (sub_ws true r)).
      destruct (IH true (Some space)) as [H | [H | [_ H]]]; [|tauto|tauto].
      destruct r as [|d r']; [right; left; exact H|].
      left. rewrite H.
      change (last_char p (c :: d :: r')) with (last_char (Some c) (d :: r')).
      now apply last_char_indep.
  - rewrite (sub_ws_cons_word c r b E).
    change (last_char p (c :: sub_ws false r))
      with (last_char (Some c) (sub_ws false r)).
    destruct (IH false (Some c)) as [H | [H | [H _]]];
      [now left | tauto | discriminate].
Qed.

Lemma last_char_re_sub_ws (s : str) :
  word_at (last_char None s) = false ->
  word_at (last_char None (re_sub_ws s)) = false.
Proof.
  intros H. unfold re_sub_ws.
  destruct (last_char_sub_ws false None s) as [E | [E | [E _]]];
    [now rewrite E | now rewrite E | discriminate].
Qed.

Lemma hd_rstrip (s : str) :
  word_at (hd_error s) = false -> word_at (hd_error (rstrip s)) = false.
Proof.
  destruct s as [|c r]; [trivial|]. simpl.
  destruct (rstrip r); [destruct (isspace c)|]; trivial.
Qed.

Lemma hd_re_sub_ws (s : str) :
  word_at (hd_error s) = false -> word_at (hd_error (re_sub_ws s)) = false.
Proof.
  destruct s as [|c r]; [trivial|]. unfold re_sub_ws. simpl.
  now destruct (isspace c).
Qed.

Lemma hd_lower (s : str) : word_at (hd_error (lower s)) = word_at (hd_error s).
Proof. destruct s; [reflexivity|]. simpl. apply isword_lower_char. Qed.

(** Every crisis phrase begins and ends with a word character and is its
    own normalisation. *)
Lemma crisis_keyword_shape (kw : str) :
  In kw CRISIS_KEYWORDS ->
  exists c r a d,
    kw = c :: r /\ kw = a ++ [d] /\
    isword c = true /\ isword d = true /\ re_sub_ws kw = kw.
Proof.
  intros H. unfold CRISIS_KEYWORDS in H. simpl in H.
  repeat (destruct H as [<- | H];
          [match goal with
           | |- exists c r a d, ?K = _ /\ _ =>
               exists (hd space K), (tl K), (removelast K), (last K space)
           end; repeat split; reflexivity|]).
  now elim H.
Qed.

(** The normalisation of a text around a crisis phrase. *)
Lemma preprocess_around (kw before after : str) :
  In kw CRISIS_KEYWORDS ->
  re_sub_ws (rstrip (lstrip (before ++ kw ++ after)))
  = re_sub_ws (lstrip before) ++ kw ++ re_sub_ws (rstrip after).
Proof.
  intros Hin.
  destruct (crisis_keyword_shape kw Hin) as (c & r & a & d & Hc & Hd & Wc & Wd & Hn).
  apply isword_not_space in Wc, Wd.
  assert (E1 : lstrip (before ++ kw ++ after) = (lstrip before ++ kw) ++ after).
  { rewrite Hc at 1. change ((c :: r) ++ after) with (c :: r ++ after).
    rewrite (lstrip_app_word _ _ c Wc), <- app_assoc. now rewrite Hc. }
  rewrite E1.
  assert (E2 : lstrip before ++ kw = (lstrip before ++ a) ++ [d])
    by (rewrite Hd at 1; apply app_assoc).
  rewrite E2, (rstrip_app_word _ _ d Wd). unfold re_sub_ws.
  rewrite (sub_ws_app_last false _ _ d Wd), <- E2.
  rewrite Hc at 1. rewrite (sub_ws_app_head false _ _ c Wc), <- Hc.
  fold (re_sub_ws kw). rewrite Hn. now rewrite <- app_assoc.
Qed.

(** X6.  A crisis phrase, in any capitalisation, that has no letter, digit
    or underscore right before it and none right after it is found,
    wherever it stands and whatever else the text says. *)
Theorem delimited_phrase_detected (kw k before after : str) :
  In kw CRISIS_KEYWORDS ->
  lower k = kw ->
  word_at (last_char None before) = false ->
  word_at (hd_error after) = false ->
  contains_crisis (before ++ k ++ after) = true.
Proof.
  intros Hin Hk Hb Ha. apply contains_crisis_spec. exists kw. split; [exact Hin|].
  unfold preprocess, strip, lower. rewrite !map_app.
  fold (lower before) (lower k) (lower after). rewrite Hk.
  fold (re_sub_ws (rstrip (lstrip (lower before ++ kw ++ lower after)))).
  rewrite (preprocess_around kw _ _ Hin).
  destruct (crisis_keyword_shape kw Hin) as (c & r & a & d & Hc & Hd & Wc & Wd & _).
  exists (re_sub_ws (lstrip (lower before))), (re_sub_ws (rstrip (lower after))).
  split; [reflexivity|]. unfold boundary. split.
  - rewrite last_char_re_sub_ws
      by (apply last_char_lstrip; now rewrite last_char_lower).
    rewrite Hc. simpl. now rewrite Wc.
  - rewrite Hd at 1. rewrite app_assoc, last_char_snoc. simpl. rewrite Wd.
    now rewrite hd_re_sub_ws by (apply hd_rstrip; now rewrite hd_lower).
Qed.

Lemma delimited_phrase_detected_witness :
  contains_crisis (py "Honestly (I " ++ py "Want To Die" ++ py "), he wrote.") = true.
Proof.
  apply (delimited_phrase_detected (py "want to die") (py "Want To Die")
           (py "Honestly (I ") (py "), he wrote.")).
  - do 4 right. left. reflexivity.
  - reflexivity.
  - reflexivity.
  - reflexivity.
Defined.

(** ** Tags and whitespace *)

Lemma contains_cons (w r : str) (c : ascii) :
  contains w (c :: r) = begins w (c :: r) || contains w r.
Proof.
  unfold begins.
  change (contains w (c :: r))
    with (match starts_with w (c :: r) with
          | Some _ => true
          | None => contains w r
          end).
  now destruct (starts_with w (c :: r)).
Qed.

Lemma contains_nil (w : str) : contains w [] = begins w [].
Proof. reflexivity. Qed.

Lemma begins_cons (k c : ascii) (w r : str) :
  begins (k :: w) (c :: r) = Ascii.eqb k c && begins w r.
Proof. unfold begins. simpl. now destruct (Ascii.eqb k c). Qed.

Lemma eqb_space_word (k c : ascii) :
  isspace k = false -> isspace c = true -> Ascii.eqb k c = false.
Proof.
  intros Hk Hc. destruct (Ascii.eqb k c) eqn:E; [|reflexivity].
  apply Ascii.eqb_eq in E. congruence.
Qed.

Lemma plain_cons (w : str) :
  plain w = true ->
  exists k w', w = k :: w' /\ isspace k = false /\
               forallb (fun c => negb (isspace c)) w' = true.
Proof.
  destruct w as [|k w']; [discriminate|]. simpl.
  intros H. apply andb_prop in H as [Hk Hw]. exists k, w'.
  repeat split; trivial. now apply negb_true_iff.
Qed.

Lemma begins_sub_ws (w s : str) :
  forallb (fun c => negb (isspace c)) w = true ->
  begins w (sub_ws false s) = begins w s.
Proof.
  revert s. induction w as [|k w IH]; intros s H; [reflexivity|].
  simpl in H. apply andb_prop in H as [Hk Hw]. apply negb_true_iff in Hk.
  destruct s as [|c r]; [reflexivity|]. destruct (isspace c) eqn:E.
  - rewrite (sub_ws_cons_space c r false E), !begins_cons.
    now rewrite (eqb_space_word k space Hk isspace_space), (eqb_space_word k c Hk E).
  - rewrite (sub_ws_cons_word c r false E), !begins_cons. now rewrite IH.
Qed.

Lemma contains_sub_ws (b : bool) (w s : str) :
  plain w = true -> contains w (sub_ws b s) = contains w s.
Proof.
  intros Hp. pose proof (plain_cons w Hp) as (k & w' & -> & Hk & Hw).
  revert b. induction s as [|c r IH]; intros b; [reflexivity|].
  rewrite (contains_cons (k :: w') r c). destruct (isspace c) eqn:E.
  - rewrite (sub_ws_cons_space c r b E), begins_cons, (eqb_space_word k c Hk E).
    destruct b; [apply IH|].
    rewrite contains_cons, begins_cons, (eqb_space_word k space Hk isspace_space).
    apply IH.
  - rewrite (sub_ws_cons_word c r b E), contains_cons, IH. f_equal.
    rewrite <- (sub_ws_cons_word c r false E). apply begins_sub_ws.
    simpl. now rewrite Hk, Hw.
Qed.

Lemma contains_lstrip (w s : str) :
  plain w = true -> contains w (lstrip s) = contains w s.
Proof.
  intros Hp. pose proof (plain_cons w Hp) as (k & w' & -> & Hk & Hw).
  induction s as [|c r IH]; [reflexivity|]. simpl lstrip.
  destruct (isspace c) eqn:E; [|reflexivity].
  now rewrite contains_cons, begins_cons, (eqb_space_word k c Hk E).
Qed.

Lemma begins_rstrip (w s : str) :
  forallb (fun c => negb (isspace c)) w = true ->
  begins w (rstrip s) = begins w s.
Proof.
  revert w. induction s as [|c r IH]; intros w H; [reflexivity|].
  destruct w as [|k w]; [reflexivity|].
  simpl in H. apply andb_prop in H as [Hk Hw]. apply negb_true_iff in Hk.
  destruct (isspace c) eqn:E.
  - rewrite (rstrip_cons_space c r E), begins_cons, (eqb_space_word k c Hk E).
    destruct (rstrip r); [reflexivity|].
    now rewrite begins_cons, (eqb_space_word k c Hk E).
  - rewrite (rstrip_cons_word c r E), !begins_cons. now rewrite IH.
Qed.

Lemma contains_rstrip (w s : str) :
  plain w = true -> contains w (rstrip s) = contains w s.
Proof.
  intros Hp. pose proof (plain_cons w Hp) as (k & w' & -> & Hk & Hw).
  induction s as [|c r IH]; [reflexivity|].
  rewrite (contains_cons (k :: w') r c). destruct (isspace c) eqn:E.
  - rewrite (rstrip_cons_space c r E), begins_cons, (eqb_space_word k c Hk E).
    rewrite <- IH. destruct (rstrip r) as [|x y]; [reflexivity|].
    now rewrite contains_cons, begins_cons, (eqb_space_word k c Hk E).
  - rewrite <- IH, <- (begins_rstrip (k :: w') (c :: r))
      by (simpl; now rewrite Hk, Hw).
    rewrite (rstrip_cons_word c r E). apply contains_cons.
Qed.

(** For a word without whitespace, to occur in the normalised text is to
    occur in the lowercased text. *)
Lemma contains_preprocess (w t : str) :
  plain w = true -> contains w (preprocess t) = contains w (lower t).
Proof.
  intros Hp. unfold preprocess, re_sub_ws, strip.
  now rewrite contains_sub_ws, contains_rstrip, contains_lstrip.
Qed.

Lemma keywords_plain (item : str * list str) (w : str) :
  In item COMMON_KEYWORDS -> In w (snd item) -> plain w = true.
Proof.
  assert (H : forallb (fun it => forallb plain (snd it)) COMMON_KEYWORDS = true)
    by reflexivity.
  rewrite forallb_forall in H. intros Hi Hw.
  specialize (H item Hi). rewrite forallb_forall in H. now apply H.
Qed.

Lemma existsb_ext_in (A : Type) (f g : A -> bool) (l : list A) :
  (forall x, In x l -> f x = g x) -> existsb f l = existsb g l.
Proof.
  induction l as [|a l IH]; intros H; simpl; [reflexivity|].
  rewrite (H a (or_introl eq_refl)), IH; [reflexivity|].
  intros x Hx. apply H. now right.
Qed.

(** X7.  The tags do not depend on the whitespace of the text: no keyword
    holds whitespace, so [extract_tags] finds the same topics by looking
    for the keywords in the lowercased text as it stands. *)
Theorem tags_of_lowercase (text : str) :
  extract_tags text
  = map fst
      (filter (fun item => existsb (fun w => contains w (lower text)) (snd item))
         COMMON_KEYWORDS).
Proof.
  unfold extract_tags. f_equal. apply filter_ext_in. intros item Hi.
  apply existsb_ext_in. intros w Hw. apply contains_preprocess.
  now apply (keywords_plain item w).
Qed.

Lemma extract_tags_In (tag text : str) :
  In tag (extract_tags text) <->
  exists words w,
    In (tag, words) COMMON_KEYWORDS /\ In w words /\
    contains w (preprocess text) = true.
Proof.
  unfold extract_tags. rewrite in_map_iff. split.
  - intros ([tag' words] & <- & H). apply filter_In in H as [Hin H].
    apply existsb_exists in H as (w0 & Hw & H). now exists words, w0.
  - intros (words & w0 & Hin & Hw & H). exists (tag, words). split; trivial.
    apply filter_In. split; trivial. apply existsb_exists. now exists w0.
Qed.

(** X8.  Text added before or after never takes a tag away: every tag of a
    text is a tag of any text that contains it. *)
Theorem tags_grow (before text after tag : str) :
  In tag (extract_tags text) ->
  In tag (extract_tags (before ++ text ++ after)).
Proof.
  rewrite !extract_tags_In. intros (words & w & Hin & Hw & H).
  exists words, w. repeat split; trivial.
  pose proof (keywords_plain (tag, words) w Hin Hw) as Hp.
  rewrite (contains_preprocess w text Hp) in H.
  rewrite (contains_preprocess w _ Hp).
  apply contains_occurs in H as (pre & post & E). apply contains_occurs.
  unfold lower in *. rewrite !map_app, E.
  exists (map lower_char before ++ pre), (post ++ map lower_char after).
  now rewrite <- !app_assoc.
Qed.

Lemma tags_grow_witness :
  In (py "exam") (extract_tags (py "Well, " ++ py "my EXAM" ++ py "s are over")).
Proof.
  apply (tags_grow (py "Well, ") (py "my EXAM") (py "s are over") (py "exam")).
  do 1 left. reflexivity.
Defined.

Lemma contains_trans (w1 w2 t : str) :
  contains w1 w2 = true -> contains w2 t = true -> contains w1 t = true.
Proof.
  rewrite !contains_occurs. intros (a & b & ->) (pre & post & ->).
  exists (pre ++ a), (b ++ post). now rewrite <- !app_assoc.
Qed.

Lemma orb_implied (b1 b2 x : bool) :
  (b2 = true -> b1 = true) -> b1 || (b2 || x) = b1 || x.
Proof. destruct b1, b2; simpl; trivial. intros H. now discriminate H. Qed.

(** X9.  Two keywords change nothing: a text that holds "stressed" holds
    "stress", and one that holds "sleeping" holds "sleep", words of the same
    topics.  [extract_tags] returns what it returns on the table without
    them. *)
Theorem tags_without_longer_words (text : str) :
  extract_tags text = tags_with SHORT_KEYWORDS text.
Proof.
  unfold extract_tags, tags_with, COMMON_KEYWORDS, SHORT_KEYWORDS.
  cbn [filter snd existsb].
  set (p := preprocess text).
  rewrite (orb_implied (contains (py "stress") p) (contains (py "stressed") p))
    by (apply contains_trans; reflexivity).
  assert (Hs : contains (py "sleeping") p = true -> contains (py "sleep") p = true)
    by (apply contains_trans; reflexivity).
  replace (contains (py "sleep") p
           || (contains (py "tired") p || (contains (py "sleeping") p || false)))
    with (contains (py "sleep") p || (contains (py "tired") p || false)).
  - repeat match goal with
           | |- context [if ?b then _ else _] => destruct b
           end; reflexivity.
  - destruct (contains (py "sleep") p), (contains (py "tired") p),
      (contains (py "sleeping") p); simpl; trivial. now discriminate Hs.
Qed.

(** ** More on the store *)

Lemma sql_limit_nil (A : Type) (limit : Z) : sql_limit limit (@nil A) = [].
Proof. unfold sql_limit. destruct (limit <? 0)%Z; [reflexivity | apply firstn_nil]. Qed.

Lemma int64_spec (limit : Z) :
  int64 limit = negb ((limit <? - 2 ^ 63) || (2 ^ 63 <=? limit))%Z.
Proof.
  unfold int64. now rewrite negb_orb, <- Z.leb_antisym, <- Z.ltb_antisym.
Qed.

(** X10.  [get_history] for every limit, on any table [save_message] has
    built: a limit outside the 64-bit range raises; a negative limit gives
    the whole history of the user; any other limit gives its last [limit]
    rows; always in the order of writing. *)
Theorem history_any_limit (calls : list append) (user : str) (limit : Z) :
  get_history user limit (run calls)
  = if ((limit <? - 2 ^ 63) || (2 ^ 63 <=? limit))%Z then None
    else if (limit <? 0)%Z then Some (map written (by_user user calls))
    else Some (map written (lastn (Z.to_nat limit) (by_user user calls))).
Proof.
  rewrite get_history_run, int64_spec.
  destruct ((limit <? - 2 ^ 63) || (2 ^ 63 <=? limit))%Z; [reflexivity|].
  cbv [negb]. unfold sql_limit.
  destruct (limit <? 0)%Z; [now rewrite rev_involutive|].
  now rewrite rev_firstn_rev, lastn_map.
Qed.

Lemma fold_append_sequence (calls : list append) (d : database) :
  sqlite_sequence (fold_left apply_append calls d)
  = (sqlite_sequence d + Z.of_nat (List.length calls))%Z.
Proof.
  revert d. induction calls as [|a calls IH]; intros d.
  - simpl. lia.
  - cbn [fold_left List.length]. rewrite IH.
    change (sqlite_sequence (apply_append d a)) with (sqlite_sequence d + 1)%Z.
    lia.
Qed.

Lemma fold_append_ids (calls : list append) (d : database) :
  map m_id (messages (fold_left apply_append calls d))
  = map m_id (messages d)
    ++ map (fun i => (sqlite_sequence d + Z.of_nat i)%Z) (seq 1 (List.length calls)).
Proof.
  revert d. induction calls as [|a calls IH]; intros d.
  - simpl. now rewrite app_nil_r.
  - cbn [fold_left List.length]. rewrite IH.
    change (sqlite_sequence (apply_append d a)) with (sqlite_sequence d + 1)%Z.
    unfold apply_append, save_message. cbn [messages].
    rewrite map_app, <- app_assoc. f_equal.
    cbn [map app seq m_id]. f_equal.
    rewrite <- (seq_shift (List.length calls) 1), map_map.
    apply map_ext. intros i. lia.
Qed.

(** X11.  The ids of the table are 1, 2, 3, ... in the order of writing,
    and the AUTOINCREMENT counter is the number of rows: no id is skipped
    and none is given twice. *)
Theorem ids_count_up (calls : list append) :
  map m_id (messages (run calls)) = map Z.of_nat (seq 1 (List.length calls)) /\
  sqlite_sequence (run calls) = Z.of_nat (List.length calls).
Proof.
  unfold run. rewrite fold_append_ids, fold_append_sequence. simpl.
  split; [|lia]. apply map_ext. intros i. lia.
Qed.

Lemma by_user_none (user : str) (calls : list append) :
  (forall a, In a calls -> a_user a <> user) -> by_user user calls = [].
Proof.
  intros H. unfold by_user. induction calls as [|a calls IH]; [reflexivity|].
  simpl. rewrite (str_eqb_neq (a_user a) user) by (apply H; now left).
  apply IH. intros b Hb. apply H. now right.
Qed.

(** X12.  A name nobody wrote under is no error: its history is empty for
    every limit that can be bound, the page shows the note that there is no
    chat history yet, and the data frame of the mood chart is empty. *)
Theorem unknown_user_empty (calls : list append) (user : str) (limit : Z) :
  (forall a, In a calls -> a_user a <> user) ->
  get_history user limit (run calls) = (if int64 limit then Some [] else None) /\
  conversation user (run calls)
  = Some [info (py "No chat history yet. Start a conversation below.")] /\
  mood_frame user (run calls) = Some [].
Proof.
  intros H. apply by_user_none in H.
  unfold conversation, mood_frame. rewrite !get_history_run, H. simpl.
  rewrite !sql_limit_nil. repeat split.
Qed.

Lemma unknown_user_empty_witness :
  get_history (py "Zoe") 500 (run two_users)
  = (if int64 500 then Some [] else None) /\
  conversation (py "Zoe") (run two_users)
  = Some [info (py "No chat history yet. Start a conversation below.")] /\
  mood_frame (py "Zoe") (run two_users) = Some [].
Proof.
  apply (unknown_user_empty two_users (py "Zoe") 500).
  intros a Ha. simpl in Ha.
  repeat (destruct Ha as [<- | Ha]; [discriminate|]). now elim Ha.
Defined.

Lemma lastn_lastn (A : Type) (n m : nat) (l : list A) :
  (n <= m)%nat -> lastn n (lastn m l) = lastn n l.
Proof.
  intros H. unfold lastn. rewrite length_skipn, skipn_skipn. f_equal. lia.
Qed.

Lemma lastn_length_min (A : Type) (n : nat) (l : list A) :
  List.length (lastn n l) = Nat.min n (List.length l).
Proof. unfold lastn. rewrite length_skipn. lia. Qed.

(** X13.  Histories of the same user nest: with a smaller limit
    [get_history] returns the end of what it returns with a larger one, and
    the number of rows it returns is the limit or, if there are fewer, the
    number of rows of the user. *)
Theorem history_nests (calls : list append) (user : str) (n m : Z) :
  (0 <= n <= m)%Z -> (m < 2 ^ 63)%Z ->
  exists hn hm,
    get_history user n (run calls) = Some hn /\
    get_history user m (run calls) = Some hm /\
    hn = lastn (Z.to_nat n) hm /\
    Z.of_nat (List.length hn)
    = Z.min n (Z.of_nat (List.length (by_user user calls))).
Proof.
  intros Hn Hm.
  rewrite !history_nonneg by lia.
  eexists _, _. repeat split.
  - rewrite lastn_map, lastn_lastn by lia. reflexivity.
  - rewrite length_map, lastn_length_min. lia.
Qed.

Lemma history_nests_witness :
  exists hn hm,
    get_history (py "Guest") 1 (run two_users) = Some hn /\
    get_history (py "Guest") 500 (run two_users) = Some hm /\
    hn = lastn (Z.to_nat 1) hm /\
    Z.of_nat (List.length hn)
    = Z.min 1 (Z.of_nat (List.length (by_user (py "Guest") two_users))).
Proof.
  apply (history_nests two_users (py "Guest") 1 500); [lia | reflexivity].
Defined.

Lemma by_user_snoc_other (user : str) (calls : list append) (a : append) :
  a_user a <> user -> by_user user (calls ++ [a]) = by_user user calls.
Proof.
  intros H. unfold by_user. rewrite filter_app. simpl.
  rewrite (str_eqb_neq _ _ H). apply app_nil_r.
Qed.

(** X14.  A write only adds: after [save_message] the whole history of the
    user is the whole history of before with the new row at its end, and
    the history of every other user is, for every limit, what it was. *)
Theorem save_only_adds (calls : list append) (user other role text now : str)
    (score : option Q) (limit : Z) :
  other <> user ->
  get_history user (-1) (save_message user role text score now (run calls))
  = Some (map written (by_user user calls) ++ [(role, text, score, now)]) /\
  get_history user (-1) (run calls) = Some (map written (by_user user calls)) /\
  get_history other limit (save_message user role text score now (run calls))
  = get_history other limit (run calls).
Proof.
  intros Hne.
  set (a := {| a_user := user; a_role := role; a_text := text;
               a_compound := score; a_now := now |}).
  change (save_message user role text score now (run calls))
    with (apply_append (run calls) a).
  rewrite <- run_snoc, !get_history_run.
  rewrite (by_user_snoc user calls a eq_refl).
  rewrite (by_user_snoc_other other calls a) by (simpl; congruence).
  change (int64 (-1)) with true. unfold sql_limit at 1 2.
  change (-1 <? 0)%Z with true. cbv iota.
  now rewrite !rev_involutive, map_app.
Qed.

Lemma save_only_adds_witness :
  get_history (py "Guest") (-1)
    (save_message (py "Guest") (py "user") (py "bye") (Some 0) (py "t9")
       (run two_users))
  = Some (map written (by_user (py "Guest") two_users)
          ++ [(py "user", py "bye", Some 0, py "t9")]) /\
  get_history (py "Guest") (-1) (run two_users)
  = Some (map written (by_user (py "Guest") two_users)) /\
  get_history (py "Ana") 500
    (save_message (py "Guest") (py "user") (py "bye") (Some 0) (py "t9")
       (run two_users))
  = get_history (py "Ana") 500 (run two_users).
Proof.
  apply (save_only_adds two_users (py "Guest") (py "Ana") (py "user") (py "bye")
           (py "t9") (Some 0) 500).
  discriminate.
Defined.

(** ** More on the turn *)

Lemma bucket_reply_draws (s : sentiment) (tags : list str) (w : world) :
  exists base rest w',
    In base (responses s) /\
    bucket_reply s tags w = Some (base ++ rest, w') /\
    db w' = db w /\
    draws (gen w') = draws (gen w) /\
    used (gen w') = (used (gen w) + draws_of_turn false s)%nat.
Proof.
  destruct s; [|destruct tags as [|tag tags]|].
  - destruct (bucket_reply_bare positive tags w (or_introl eq_refl))
      as (base & Hb & E).
    exists base, [], {| db := db w; gen := advance (gen w) |}.
    rewrite app_nil_r. repeat split; trivial. simpl. lia.
  - destruct (bucket_reply_bare neutral [] w (or_intror (conj eq_refl eq_refl)))
      as (base & Hb & E).
    exists base, [], {| db := db w; gen := advance (gen w) |}.
    rewrite app_nil_r. repeat split; trivial. simpl. lia.
  - destruct (bucket_reply_neutral_tags tag tags w) as (base & Hb & E).
    exists base, (tags_sentence (tag :: tags)),
      {| db := db w; gen := advance (gen w) |}.
    repeat split; trivial. simpl. lia.
  - destruct (bucket_reply_negative tags w) as (base & tip & Hb & _ & E).
    exists base, (py " Tip: " ++ tip),
      {| db := db w; gen := advance (advance (gen w)) |}.
    repeat split; trivial. simpl. lia.
Qed.

(** No reply of the bucket branch is the crisis message: the templates
    differ from it within their first two characters. *)
Lemma template_not_crisis (s : sentiment) (base rest : str) :
  In base (responses s) -> base ++ rest <> CRISIS_MESSAGE.
Proof.
  intros Hin H. apply (f_equal (firstn 2)) in H.
  destruct s; simpl in Hin;
    repeat (destruct Hin as [<- | Hin]; [vm_compute in H; discriminate|]);
    now elim Hin.
Qed.

(** X15.  The crisis message is the reply of a turn exactly when the crisis
    override fires, that is when the text holds a crisis phrase or the
    compound score is at most -0.85: no template, with or without its
    suffix, reads like it. *)
Theorem crisis_reply_exact (polarity_scores : str -> scores)
    (username user_input now_user now_bot : str) (w : world) :
  exists reply w',
    turn polarity_scores username user_input now_user now_bot w
    = Some (reply, w') /\
    (reply = CRISIS_MESSAGE <->
     contains_crisis user_input = true \/
     compound (sentiment_scores polarity_scores user_input) <= -0.85).
Proof.
  destruct (contains_crisis user_input
            || Qle_bool (compound (sentiment_scores polarity_scores user_input))
                 (-0.85)) eqn:E.
  - rewrite (turn_crisis _ _ _ _ _ _ E). eexists _, _. split; [reflexivity|].
    split; [intros _ | reflexivity].
    apply orb_true_iff in E as [E | E]; [now left | right; now apply Qle_bool_iff].
  - rewrite (turn_bucket _ _ _ _ _ _ E).
    set (w1 := {| db := _; gen := gen w |}).
    destruct (bucket_reply_draws
                (bucket (compound (sentiment_scores polarity_scores user_input)))
                (extract_tags user_input) w1)
      as (base & rest & w2 & Hin & -> & _).
    eexists _, _. split; [reflexivity|]. split.
    + intros H. exfalso. exact (template_not_crisis _ base rest Hin H).
    + intros H. apply orb_false_iff in E as [E1 E2].
      destruct H as [H | H]; [congruence|].
      apply Qle_bool_iff in H. congruence.
Qed.

(** X16.  What a turn takes from the generator: nothing in a crisis, two
    draws in the negative bucket (the template and the tip), one draw
    otherwise; the sequence of numbers to come is never touched. *)
Theorem turn_draws (polarity_scores : str -> scores)
    (username user_input now_user now_bot : str) (w : world) :
  let c := compound (sentiment_scores polarity_scores user_input) in
  exists reply w',
    turn polarity_scores username user_input now_user now_bot w
    = Some (reply, w') /\
    draws (gen w') = draws (gen w) /\
    used (gen w')
    = (used (gen w)
       + draws_of_turn (contains_crisis user_input || Qle_bool c (-0.85))
           (bucket c))%nat.
Proof.
  intros c. unfold c.
  destruct (contains_crisis user_input
            || Qle_bool (compound (sentiment_scores polarity_scores user_input))
                 (-0.85)) eqn:E.
  - rewrite (turn_crisis _ _ _ _ _ _ E). eexists _, _.
    repeat split. simpl. lia.
  - rewrite (turn_bucket _ _ _ _ _ _ E).
    set (w1 := {| db := _; gen := gen w |}).
    destruct (bucket_reply_draws
                (bucket (compound (sentiment_scores polarity_scores user_input)))
                (extract_tags user_input) w1)
      as (base & rest & w2 & _ & -> & _ & Hd & Hu).
    eexists _, _. split; [reflexivity|]. split; [exact Hd | exact Hu].
Qed.

(** ** The page after a turn *)

Lemma lastn_app_short (A : Type) (n : nat) (l1 l2 : list A) :
  (List.length l2 <= n)%nat ->
  lastn n (l1 ++ l2) = lastn (n - List.length l2) l1 ++ l2.
Proof.
  intros H. unfold lastn. rewrite length_app, skipn_app.
  replace (List.length l1 + List.length l2 - n)%nat
    with (List.length l1 - (n - List.length l2))%nat by lia.
  replace (List.length l1 - (n - List.length l2) - List.length l1)%nat
    with 0%nat by lia.
  reflexivity.
Qed.

Lemma by_user_app (user : str) (l1 l2 : list append) :
  by_user user (l1 ++ l2) = by_user user l1 ++ by_user user l2.
Proof. apply filter_app. Qed.

(** The table after a turn, as a run of calls. *)
Lemma turn_run (polarity_scores : str -> scores)
    (username user_input now_user now_bot : str) (w : world)
    (calls : list append) :
  db w = run calls ->
  exists reply w',
    turn polarity_scores username user_input now_user now_bot w
    = Some (reply, w') /\
    db w'
    = run (calls ++
           [ said username user_input now_user
               (compound (sentiment_scores polarity_scores user_input));
             answered username reply now_bot ]).
Proof.
  intros Hdb.
  destruct (turn_rows polarity_scores username user_input now_user now_bot w)
    as (reply & w' & E & Hw).
  exists reply, w'. split; [exact E|]. rewrite Hw. simpl db. rewrite Hdb.
  change [said username user_input now_user
            (compound (sentiment_scores polarity_scores user_input));
          answered username reply now_bot]
    with ([said username user_input now_user
             (compound (sentiment_scores polarity_scores user_input))]
          ++ [answered username reply now_bot]).
  now rewrite app_assoc, !run_snoc.
Qed.

(** X17.  Once a turn is over the store gives it back: the history of
    limit 2 of the user is the row of the text and the row of the reply,
    the conversation on the page ends with the two lines of the turn, and
    for every other user the history is what it was. *)
Theorem turn_then_page (polarity_scores : str -> scores)
    (username other user_input now_user now_bot : str) (w : world)
    (calls : list append) (limit : Z) :
  db w = run calls ->
  other <> username ->
  exists reply w',
    turn polarity_scores username user_input now_user now_bot w
    = Some (reply, w') /\
    get_history username 2 (db w')
    = Some [ (py "user", user_input,
              Some (compound (sentiment_scores polarity_scores user_input)),
              now_user);
             (py "bot", reply, None, now_bot) ] /\
    (exists earlier,
       conversation username (db w')
       = Some (earlier ++ turn_lines (user_input, reply))) /\
    get_history other limit (db w') = get_history other limit (db w).
Proof.
  intros Hdb Hne.
  destruct (turn_run polarity_scores username user_input now_user now_bot w calls Hdb)
    as (reply & w' & E & Hw).
  exists reply, w'. split; [exact E|].
  set (ua := said username user_input now_user _) in Hw.
  set (ba := answered username reply now_bot) in Hw.
  assert (Hu : by_user username (calls ++ [ua; ba])
               = by_user username calls ++ [ua; ba]).
  { rewrite by_user_app. f_equal. unfold by_user. simpl.
    now rewrite str_eqb_refl. }
  assert (Ho : by_user other (calls ++ [ua; ba]) = by_user other calls).
  { rewrite by_user_app. unfold by_user at 2. simpl.
    rewrite (str_eqb_neq username other) by congruence. apply app_nil_r. }
  rewrite Hw, Hdb. split; [|split].
  - rewrite history_nonneg by (split; [lia | reflexivity]).
    rewrite Hu. change (Z.to_nat 2) with 2%nat.
    rewrite lastn_app_short by (simpl; lia). simpl Nat.sub.
    unfold lastn at 1. rewrite Nat.sub_0_r, skipn_all. reflexivity.
  - unfold conversation.
    rewrite history_nonneg by (split; [lia | reflexivity]).
    rewrite Hu. rewrite lastn_app_short by (simpl; lia).
    rewrite map_app.
    set (shown := map written (lastn _ (by_user username calls))).
    exists (map history_line shown).
    destruct shown as [|x l]; [reflexivity|].
    rewrite map_app. reflexivity.
  - now rewrite !get_history_run, Ho.
Qed.

Lemma turn_then_page_witness :
  exists reply w',
    turn toy_sia (py "Guest") (py "so sad") (py "t1") (py "t2") new_world
    = Some (reply, w') /\
    get_history (py "Guest") 2 (db w')
    = Some [ (py "user", py "so sad",
              Some (compound (sentiment_scores toy_sia (py "so sad"))), py "t1");
             (py "bot", reply, None, py "t2") ] /\
    (exists earlier,
       conversation (py "Guest") (db w')
       = Some (earlier ++ turn_lines (py "so sad", reply))) /\
    get_history (py "Ana") 500 (db w') = get_history (py "Ana") 500 (db new_world).
Proof.
  apply (turn_then_page toy_sia (py "Guest") (py "Ana") (py "so sad") (py "t1")
           (py "t2") new_world [] 500).
  - reflexivity.
  - discriminate.
Defined.

(** ** Tables that only the handler has written *)

Lemma list_ind2 (A : Type) (P : list A -> Prop) :
  P [] -> (forall x, P [x]) -> (forall x y l, P l -> P (x :: y :: l)) ->
  forall l, P l.
Proof.
  intros H0 H1 H2 l.
  assert (H : P l /\ forall x, P (x :: l)).
  { induction l as [|a l [IH IH']]; [now split|]. split; [apply IH'|].
    intros x. now apply H2. }
  apply H.
Qed.

Lemma paired_app (l1 l2 : list append) :
  paired l1 -> paired l2 -> paired (l1 ++ l2).
Proof.
  induction l1 as [| x | u b l1 IH] using list_ind2; simpl; trivial.
  - now intros [].
  - intros (H1 & H2 & H3 & H4 & H5 & H6) Hl2. repeat split; trivial.
    now apply IH.
Qed.

Lemma paired_by_user (user : str) (l : list append) :
  paired l -> paired (by_user user l).
Proof.
  unfold by_user.
  induction l as [| x | u b l IH] using list_ind2; simpl; trivial.
  - now intros [].
  - intros (H1 & H2 & H3 & H4 & H5 & H6). rewrite H1.
    destruct (str_eqb (a_user u) user); [|now apply IH].
    simpl. repeat split; trivial. now apply IH.
Qed.

Lemma paired_even (l : list append) :
  paired l -> exists m, List.length l = (2 * m)%nat.
Proof.
  induction l as [| x | u b l IH] using list_ind2; simpl.
  - now exists 0%nat.
  - now intros [].
  - intros (_ & _ & _ & _ & _ & H). destruct (IH H) as (m & ->).
    exists (S m). lia.
Qed.

Lemma paired_skipn (j : nat) (l : list append) :
  paired l -> paired (skipn (2 * j) l).
Proof.
  revert l. induction j as [|j IH]; intros l H; [exact H|].
  replace (2 * S j)%nat with (S (S (2 * j))) by lia.
  destruct l as [|u [|b l]]; simpl in *; trivial.
  apply IH. tauto.
Qed.

Lemma paired_lastn (k : nat) (l : list append) :
  paired l -> paired (lastn (2 * k) l).
Proof.
  intros H. unfold lastn. destruct (paired_even l H) as (m & ->).
  replace (2 * m - 2 * k)%nat with (2 * (m - k))%nat by lia.
  now apply paired_skipn.
Qed.

Lemma handler_built_init : handler_built (init_db None).
Proof. now exists []. Qed.

Lemma on_send_built (polarity_scores : str -> scores) (pressed : bool)
    (username user_input now_user now_bot : str) (w : world) :
  handler_built (db w) ->
  exists shown w',
    on_send polarity_scores pressed username user_input now_user now_bot w
    = Some (shown, w') /\
    handler_built (db w').
Proof.
  intros (calls & Hp & Hdb). unfold on_send.
  destruct pressed; [|exists None, w; split; [reflexivity | now exists calls]].
  destruct user_input as [|ch rest] eqn:Et;
    [exists None, w; split; [reflexivity | now exists calls]|].
  rewrite <- Et.
  destruct (turn_run polarity_scores username user_input now_user now_bot w calls Hdb)
    as (reply & w' & E & Hw).
  exists (Some reply), w'. split; [unfold bind; now rewrite E|].
  eexists. split; [|exact Hw]. apply paired_app; [exact Hp|].
  simpl. repeat split. now eexists.
Qed.

(** X18.  The handler keeps the table in pairs.  From a table that only
    it has written (a new one, for a start) every session ends, and leaves
    a table whose rows come two by two: the row of a user's text, with a
    score, and then the row of the reply, without one, under the same
    name. *)
Theorem session_keeps_pairs (polarity_scores : str -> scores)
    (events : list send) (w : world) :
  handler_built (db w) ->
  exists w',
    play polarity_scores events w = Some (tt, w') /\ handler_built (db w').
Proof.
  revert w. induction events as [|e events IH]; intros w H.
  - now exists w.
  - destruct (on_send_built polarity_scores (s_pressed e) (s_username e)
                (s_input e) (s_now_user e) (s_now_bot e) w H)
      as (shown & w1 & E & H1).
    destruct (IH w1 H1) as (w' & E' & H').
    exists w'. split; [|exact H']. simpl. unfold bind. now rewrite E.
Qed.

Lemma session_keeps_pairs_witness :
  exists w',
    play toy_sia
      [ {| s_pressed := true; s_username := py "Guest"; s_input := py "so sad";
           s_now_user := py "t1"; s_now_bot := py "t2" |};
        {| s_pressed := false; s_username := py "Guest"; s_input := py "hm";
           s_now_user := py "t3"; s_now_bot := py "t4" |};
        {| s_pressed := true; s_username := py "Ana"; s_input := py "great";
           s_now_user := py "t5"; s_now_bot := py "t6" |} ]
      new_world
    = Some (tt, w') /\ handler_built (db w').
Proof.
  apply session_keeps_pairs. exists []. split; [exact I | reflexivity].
Defined.

Lemma mood_records_paired (l : list append) :
  paired l ->
  Forall (fun r => snd r <> None) (mood_records (map written l)) /\
  List.length l = (2 * List.length (mood_records (map written l)))%nat.
Proof.
  induction l as [| x | u b l IH] using list_ind2.
  - now split.
  - now intros [].
  - intros (_ & Hu & (c & Hc) & Hb & _ & H). destruct (IH H) as [IH1 IH2].
    unfold mood_records in *. cbn [map filter written]. rewrite Hu, Hb.
    change (str_eqb (py "user") (py "user")) with true.
    change (str_eqb (py "bot") (py "user")) with false.
    cbn [map List.length]. split.
    + constructor; [simpl; now rewrite Hc | exact IH1].
    + rewrite IH2. lia.
Qed.

(** X19.  On a table that only the handler has written, every record of
    the data frame of the mood chart has its score, and there is one record
    for every two rows that [get_history(username, limit=1000)] returns:
    the chart shows the user's last turns, as many as 500 of them, and
    never meets a missing score. *)
Theorem mood_frame_complete (username : str) (d : database) :
  handler_built d ->
  exists rows records,
    get_history username 1000 d = Some rows /\
    mood_frame username d = Some records /\
    Forall (fun r => snd r <> None) records /\
    List.length rows = (2 * List.length records)%nat /\
    (List.length records <= 500)%nat.
Proof.
  intros (calls & Hp & ->). unfold mood_frame.
  rewrite history_nonneg by (split; [lia | reflexivity]).
  change (Z.to_nat 1000) with (2 * 500)%nat.
  set (l := lastn (2 * 500) (by_user username calls)).
  assert (Hl : paired l) by (apply paired_lastn, paired_by_user, Hp).
  destruct (mood_records_paired l Hl) as [H1 H2].
  eexists _, _. repeat split; trivial.
  - now rewrite length_map.
  - pose proof (lastn_length _ (2 * 500) (by_user username calls)) as Hn.
    fold l in Hn. lia.
Qed.

Lemma mood_frame_complete_witness :
  exists rows records,
    get_history (py "Guest") 1000 (run [ said (py "Guest") (py "hi") (py "t1") 0;
                                         answered (py "Guest") (py "I see.") (py "t2") ])
    = Some rows /\
    mood_frame (py "Guest") (run [ said (py "Guest") (py "hi") (py "t1") 0;
                                   answered (py "Guest") (py "I see.") (py "t2") ])
    = Some records /\
    Forall (fun r => snd r <> None) records /\
    List.length rows = (2 * List.length records)%nat /\
    (List.length records <= 500)%nat.
Proof.
  apply mood_frame_complete. eexists. split; [|reflexivity].
  simpl. repeat split. now eexists.
Defined.

Lemma history_lines_paired (l : list append) :
  paired l ->
  exists turns,
    map history_line (map written l) = flat_map turn_lines turns /\
    List.length l = (2 * List.length turns)%nat.
Proof.
  induction l as [| x | u b l IH] using list_ind2.
  - now exists [].
  - now intros [].
  - intros (_ & Hu & _ & Hb & _ & H). destruct (IH H) as (turns & E & Hn).
    exists ((a_text u, a_text b) :: turns).
    cbn [map flat_map written history_line List.length]. rewrite Hu, Hb, E.
    change (str_eqb (py "user") (py "user")) with true.
    change (str_eqb (py "bot") (py "user")) with false.
    split; [reflexivity | lia].
Qed.

(** X20.  On a table that only the handler has written, the conversation
    on the page is made of whole turns: either the note that there is no
    chat history yet, or, for up to 250 turns, a "You" line followed by its
    "Bot" line.  The page never opens on a reply whose question it has cut
    off. *)
Theorem conversation_whole_turns (username : str) (d : database) :
  handler_built d ->
  conversation username d
  = Some [info (py "No chat history yet. Start a conversation below.")] \/
  exists turns,
    turns <> [] /\ (List.length turns <= 250)%nat /\
    conversation username d = Some (flat_map turn_lines turns).
Proof.
  intros (calls & Hp & ->). unfold conversation.
  rewrite history_nonneg by (split; [lia | reflexivity]).
  change (Z.to_nat 500) with (2 * 250)%nat.
  set (l := lastn (2 * 250) (by_user username calls)).
  assert (Hl : paired l) by (apply paired_lastn, paired_by_user, Hp).
  destruct (history_lines_paired l Hl) as (turns & E & Hn).
  pose proof (lastn_length _ (2 * 250) (by_user username calls)) as Hb.
  fold l in Hb.
  destruct l as [|a l']; [now left|]. right.
  exists turns. repeat split.
  - intros ->. simpl in Hn. lia.
  - lia.
  - cbn [map]. cbn [map] in E. now rewrite E.
Qed.

Lemma conversation_whole_turns_witness :
  conversation (py "Guest")
    (run [ said (py "Guest") (py "hi") (py "t1") 0;
           answered (py "Guest") (py "I see.") (py "t2") ])
  = Some [info (py "No chat history yet. Start a conversation below.")] \/
  exists turns,
    turns <> [] /\ (List.length turns <= 250)%nat /\
    conversation (py "Guest")
      (run [ said (py "Guest") (py "hi") (py "t1") 0;
             answered (py "Guest") (py "I see.") (py "t2") ])
    = Some (flat_map turn_lines turns).
Proof.
  apply conversation_whole_turns. eexists. split; [|reflexivity].
  simpl. repeat split. now eexists.
Defined.

(** ** Normalising a text that is partly normalised *)

Lemma strip_lower (s : str) : strip (lower s) = lower (strip s).
Proof. unfold strip. now rewrite lstrip_lower, rstrip_lower. Qed.

(** X21.  Each step of [preprocess] done beforehand changes nothing:
    lowercasing the text, stripping it, or collapsing its whitespace first
    gives the same normalisation. *)
Theorem preprocess_absorbs_steps (t : str) :
  preprocess (lower t) = preprocess t /\
  preprocess (strip t) = preprocess t /\
  preprocess (re_sub_ws t) = preprocess t.
Proof.
  repeat split.
  - unfold preprocess. now rewrite lower_idem.
  - unfold preprocess. now rewrite strip_lower, strip_idem, <- strip_lower.
  - rewrite !preprocess_lower_last. f_equal.
    rewrite strip_sub_ws. unfold re_sub_ws. apply sub_ws_idem.
Qed.
